(** * Microsatellite_Filter: locus naming and row filtering

    A shallow embedding of [add_msat_name.py] and [ssrmmd_filter.py].

    Conventions of the embedding:
    - a Python [str] is a [string]; the model covers ASCII text, on which
      [str.strip], [str.upper], [str.lower], the regex classes [\s] and [\d]
      and [int()] are given by the character tables below;
    - a Python [int] is a [Z];
    - a [dict] is a [gmap], a [set] is a [gset], a [list] is a [list];
    - a table is what [csv.reader] hands over: a list of rows, each row a
      list of fields;
    - [sys.exit] and an uncaught exception end the run: functions that may
      do either return an [outcome]. *)

From Stdlib Require Import ZArith NArith String Ascii List Bool.
From Stdlib Require Import DecimalString DecimalZ DecimalPos DecimalFacts.
From stdpp Require Import gmap strings list fin_maps.

#[local] Set Warnings "-clear-no-such-hyp".

Local Open Scope string_scope.
Local Open Scope Z_scope.

(** ** Python text primitives *)

Module PyStr.

Definition code (c : ascii) : N := N_of_ascii c.

Definition between (lo hi : N) (c : ascii) : bool :=
  ((lo <=? code c) && (code c <=? hi))%N.

(** [str.isspace] on ASCII, which is also the regex class [\s]:
    TAB..CR, FS..US and SPACE. *)
Definition isspace (c : ascii) : bool := between 9 13 c || between 28 32 c.

(** The C-locale [isspace] that [int()] uses on an ASCII string. *)
Definition c_isspace (c : ascii) : bool := between 9 13 c || between 32 32 c.

(** The regex class [\d] on ASCII. *)
Definition isdigit (c : ascii) : bool := between 48 57 c.

Definition islower (c : ascii) : bool := between 97 122 c.
Definition isupper (c : ascii) : bool := between 65 90 c.

Definition upper_char (c : ascii) : ascii :=
  if islower c then ascii_of_N (code c - 32) else c.

Definition lower_char (c : ascii) : ascii :=
  if isupper c then ascii_of_N (code c + 32) else c.

Fixpoint map_chars (f : ascii -> ascii) (s : string) : string :=
  match s with
  | EmptyString => EmptyString
  | String c s' => String (f c) (map_chars f s')
  end.

Fixpoint all_chars (p : ascii -> bool) (s : string) : bool :=
  match s with
  | EmptyString => true
  | String c s' => p c && all_chars p s'
  end.

Definition upper : string -> string := map_chars upper_char.
Definition lower : string -> string := map_chars lower_char.

Fixpoint lstrip (s : string) : string :=
  match s with
  | EmptyString => EmptyString
  | String c s' => if isspace c then lstrip s' else s
  end.

Fixpoint rstrip (s : string) : string :=
  match s with
  | EmptyString => EmptyString
  | String c s' =>
      match rstrip s' with
      | EmptyString => if isspace c then EmptyString else String c EmptyString
      | r => String c r
      end
  end.

(** [s.strip()] *)
Definition strip (s : string) : string := rstrip (lstrip s).

(** Python truthiness of a string: [not s] holds exactly for [""]. *)
Definition truthy (s : string) : bool :=
  match s with EmptyString => false | _ => true end.

Definition digit_val (c : ascii) : Z := Z.of_N (code c) - 48.

(** The digits part of an [int()] literal: digits, single underscores
    allowed between two digits, then only trailing white space. *)
Fixpoint int_tail (s : string) (acc : Z) : option Z :=
  match s with
  | EmptyString => Some acc
  | String c s' =>
      if isdigit c then int_tail s' (10 * acc + digit_val c)
      else if Ascii.eqb c "_" then
        match s' with
        | String c' s'' =>
            if isdigit c' then int_tail s'' (10 * acc + digit_val c') else None
        | EmptyString => None
        end
      else if all_chars c_isspace s then Some acc else None
  end.

Definition int_digits (s : string) : option Z :=
  match s with
  | String c s' => if isdigit c then int_tail s' (digit_val c) else None
  | EmptyString => None
  end.

Fixpoint c_lstrip (s : string) : string :=
  match s with
  | EmptyString => EmptyString
  | String c s' => if c_isspace c then c_lstrip s' else s
  end.

(** [int(s)] in base 10: [None] stands for the [ValueError]. *)
Definition int (s : string) : option Z :=
  match c_lstrip s with
  | String "+" s' => int_digits s'
  | String "-" s' => Z.opp <$> int_digits s'
  | s' => int_digits s'
  end.

(** [c in s] for a character [c]. *)
Fixpoint occurs (c : ascii) (s : string) : bool :=
  match s with
  | EmptyString => false
  | String x s' => Ascii.eqb x c || occurs c s'
  end.

(** [s] is empty or starts with a character that is no digit. *)
Definition starts_without_digit (s : string) : Prop :=
  match s with String c _ => isdigit c = false | EmptyString => True end.

(** [str(n)] for an integer, as an f-string renders it. *)
Definition str (n : Z) : string := NilZero.string_of_int (Z.to_int n).

End PyStr.

(** ** How a run ends *)

Inductive fatal : Type :=
  | CompareMissingColumns (miss : list string)
  | CompareNoRows
  | PrimerFileEmpty
  | PrimerNoIdColumn
  | PrimerNoForwardPrimerColumn
  | FilterMissingColumns (miss : list string)
  | FilterBadLength (tok : string).

Inductive exn : Type :=
  | TypeError
  | AttributeError
  | ValueError.

(** [Returned a]: the function returns [a]; [SysExit e]: it calls
    [sys.exit] with a message; [Uncaught x]: an exception leaves it. *)
Inductive outcome (A : Type) : Type :=
  | Returned (a : A)
  | SysExit (e : fatal)
  | Uncaught (x : exn).
Arguments Returned {A} a.
Arguments SysExit {A} e.
Arguments Uncaught {A} x.

(** The process ends with a non-zero exit status. *)
Definition aborts {A : Type} (o : outcome A) : Prop :=
  match o with Returned _ => False | _ => True end.

(** ** The csv module, as far as the scripts use it *)

Module Csv.

(** A cell of a [DictReader] row: a field of the line, or [None] where
    the line was shorter than the header ([restval]). *)
Inductive cell : Type :=
  | PyNone
  | Field (s : string).

(** A [DictReader] row: the cells under the header's names, and the
    surplus fields of a long line, stored under the key [None]
    ([restkey]). *)
Record dict_row : Type := DictRow {
  cells : gmap string cell;
  rest : option (list string)
}.

(** [dict(zip(fieldnames, row))], then [d[key] = None] for the names the
    line did not reach, then the surplus under [restkey]. *)
Definition to_dict (fieldnames row : list string) : dict_row :=
  let d := foldl (fun d kv => <[kv.1 := Field kv.2]> d) ∅ (zip fieldnames row) in
  let d := foldl (fun d k => <[k := PyNone]> d) d (drop (length row) fieldnames) in
  DictRow d (if (length fieldnames <? length row)%nat
             then Some (drop (length fieldnames) row) else None).

Definition blank (row : list string) : bool :=
  match row with [] => true | _ => false end.

(** [DictReader(f)]: the first line is the header (none for an empty
    file); blank lines after it are dropped. *)
Definition fieldnames (rows : list (list string)) : option (list string) :=
  head rows.

Definition DictReader (rows : list (list string)) : list dict_row :=
  match rows with
  | [] => []
  | h :: data => to_dict h <$> filter (fun r => blank r = false) data
  end.

(** [row.get(k)] *)
Definition get (row : dict_row) (k : string) : cell :=
  default PyNone (cells row !! k).

(** [row.get(k) or ""] *)
Definition get_or_empty (row : dict_row) (k : string) : string :=
  match get row k with Field s => s | PyNone => "" end.

(** The line a [DictWriter] makes of a row: the cells in header order, a
    [None] cell as the empty field. *)
Definition render (fieldnames : list string) (row : dict_row) : list string :=
  (fun k => match get row k with Field s => s | PyNone => "" end) <$> fieldnames.

(** [DictWriter.writerow(row)] with the default [extrasaction="raise"]:
    a key that is no field name raises [ValueError]. *)
Definition writerow (fieldnames : list string) (row : dict_row)
  : outcome (list string) :=
  match rest row with
  | Some _ => Uncaught ValueError
  | None =>
      if decide (dom (cells row) ⊆ list_to_set fieldnames)
      then Returned (render fieldnames row)
      else Uncaught ValueError
  end.

(** The dictionary [to_dict] builds, started from [d] instead of the
    empty dictionary. *)
Definition fill (d : gmap string cell) (fieldnames row : list string)
  : gmap string cell :=
  foldl (fun d k => <[k := PyNone]> d)
        (foldl (fun d kv => <[kv.1 := Field kv.2]> d) d (zip fieldnames row))
        (drop (length row) fieldnames).

(** The field a cell is written as. *)
Definition cell_text (c : cell) : string :=
  match c with Field s => s | PyNone => "" end.

(** The cell of the field at a position of a line, [None] beyond its
    end. *)
Definition cell_at (row : list string) (i : nat) : cell :=
  match row !! i with Some x => Field x | None => PyNone end.

End Csv.

(** ** add_msat_name.py *)

Module AddMsatName.
Import PyStr Csv.

Definition needed : list string :=
  ["number"; "fasta1_motif"; "fasta2_motif";
   "fasta1_repeat_number"; "fasta2_repeat_number"].

(** [int(row.get(k, ""))]: the header check makes [k] a key, so the
    default is never taken; a [None] cell raises [TypeError], a bad
    literal [ValueError], both caught by the loader. *)
Definition int_of_cell (c : cell) : option Z :=
  match c with Field s => int s | PyNone => None end.

Definition rmin_of (rep1 rep2 : Z) : Z := if rep1 <=? rep2 then rep1 else rep2.
Definition rmax_of (rep1 rep2 : Z) : Z := if rep2 >=? rep1 then rep2 else rep1.

(** The body of the loader's [for row in r] loop. *)
Definition load_row (comp : gmap string (string * Z * Z)) (row : dict_row)
  : gmap string (string * Z * Z) :=
  let num := strip (get_or_empty row "number") in
  if negb (truthy num) then comp else
  let m1 := upper (strip (get_or_empty row "fasta1_motif")) in
  let m2 := upper (strip (get_or_empty row "fasta2_motif")) in
  let motif := if truthy m1 then m1 else m2 in
  match int_of_cell (get row "fasta1_repeat_number") with
  | None => comp
  | Some rep1 =>
      match int_of_cell (get row "fasta2_repeat_number") with
      | None => comp
      | Some rep2 =>
          let rmin := rmin_of rep1 rep2 in
          let rmax := rmax_of rep1 rep2 in
          <[num := (motif, rmin, rmax)]> comp
      end
  end.

Definition load_rows (rows : list dict_row) : gmap string (string * Z * Z) :=
  foldl load_row ∅ rows.

Definition missing_columns (fieldnames : list string) : list string :=
  filter (fun c => c ∉ fieldnames) needed.

(** [load_compare(path)], on the rows read from [path]. On an empty file
    [r.fieldnames] is [None] and the membership test raises. *)
Definition load_compare (rows : list (list string))
  : outcome (gmap string (string * Z * Z)) :=
  match fieldnames rows with
  | None => Uncaught TypeError
  | Some names =>
      match missing_columns names with
      | (_ :: _) as miss => SysExit (CompareMissingColumns miss)
      | [] =>
          let comp := load_rows (DictReader rows) in
          if decide (comp = ∅) then SysExit CompareNoRows else Returned comp
      end
  end.

Fixpoint take_digits (s : string) : string :=
  match s with
  | EmptyString => EmptyString
  | String c s' => if isdigit c then String c (take_digits s') else EmptyString
  end.

(** [re.match(r"\s*(\d+)", raw_id)]: group 1 of the match, if any. *)
Definition re_match (raw_id : string) : option string :=
  match take_digits (lstrip raw_id) with
  | EmptyString => None
  | g => Some g
  end.

Definition extract_locus_num (raw_id : string) : string :=
  match re_match raw_id with Some g => g | None => "" end.

(** *** [main] *)

Definition base_name (motif : string) (rmin rmax : Z) : string :=
  motif ++ "(" ++ str rmin ++ "-" ++ str rmax ++ ")".

Definition final_name (base : string) (idx : Z) : string :=
  base ++ "." ++ str idx.

(** [if len(row) < len(header): row = (row + [""] * len(header))[:len(header)]] *)
Definition normalize (header row : list string) : list string :=
  if (length row <? length header)%nat
  then take (length header) (row ++ replicate (length header) "")%list
  else row.

(** [row[id_idx]]; the index is in range on a normalized row (lemma
    [normalize_lookup_id]). *)
Definition field (row : list string) (i : nat) : string :=
  default "" (row !! i).

(** The locus key of a primer row, as passes 1 and 3 compute it. *)
Definition locus_of (header : list string) (id_idx : nat) (row : list string)
  : string :=
  let row := normalize header row in
  let raw_id := strip (field row id_idx) in
  extract_locus_num raw_id.

Record pass1_state : Type := Pass1 {
  loci_in_order : list string;
  seen_loci : gset string;
  locus_base : gmap string string;
  missing_loci : gset string
}.

Definition pass1_init : pass1_state := Pass1 [] ∅ ∅ ∅.

Definition pass1_step (header : list string) (id_idx : nat)
    (comp : gmap string (string * Z * Z)) (st : pass1_state) (row : list string)
  : pass1_state :=
  let locus_num := locus_of header id_idx row in
  if negb (truthy locus_num) then st
  else if decide (locus_num ∈ seen_loci st) then st
  else
    let seen := {[locus_num]} ∪ seen_loci st in
    let loci := (loci_in_order st ++ [locus_num])%list in
    match comp !! locus_num with
    | Some (motif, rmin, rmax) =>
        Pass1 loci seen (<[locus_num := base_name motif rmin rmax]> (locus_base st))
              (missing_loci st)
    | None =>
        Pass1 loci seen (<[locus_num := "NA"]> (locus_base st))
              ({[locus_num]} ∪ missing_loci st)
    end.

Definition pass1 (header : list string) (id_idx : nat)
    (comp : gmap string (string * Z * Z)) (data : list (list string))
  : pass1_state :=
  foldl (pass1_step header id_idx comp) pass1_init data.

(** [locus_base.get(locus, "NA")] *)
Definition base_get (locus_base : gmap string string) (locus : string) : string :=
  default "NA" (locus_base !! locus).

Record pass2_state : Type := Pass2 {
  base_counts : gmap string Z;
  locus_final : gmap string string
}.

Definition pass2_init : pass2_state := Pass2 ∅ ∅.

(** [base_counts.get(base, 0)] *)
Definition count_of (st : pass2_state) (b : string) : Z :=
  default 0 (base_counts st !! b).

Definition pass2_step (locus_base : gmap string string)
    (st : pass2_state) (locus : string) : pass2_state :=
  let base := base_get locus_base locus in
  if decide (base = "NA")
  then Pass2 (base_counts st) (<[locus := "NA"]> (locus_final st))
  else
    let counts := <[base := count_of st base + 1]> (base_counts st) in
    let idx := default 0 (counts !! base) in
    Pass2 counts (<[locus := final_name base idx]> (locus_final st)).

Definition pass2 (locus_base : gmap string string) (loci : list string)
  : pass2_state :=
  foldl (pass2_step locus_base) pass2_init loci.

(** The name pass 3 looks up for a row. *)
Definition ms_name (locus_final : gmap string string)
    (header : list string) (id_idx : nat) (row : list string) : string :=
  default "NA" (locus_final !! locus_of header id_idx row).

Definition insert_after (id_idx : nat) (x : string) (row : list string)
  : list string :=
  (take (id_idx + 1) row ++ [x] ++ drop (id_idx + 1) row)%list.

Definition pass3_row (locus_final : gmap string string)
    (header : list string) (id_idx : nat) (row : list string) : list string :=
  insert_after id_idx (ms_name locus_final header id_idx row)
               (normalize header row).

Definition new_header (header : list string) (id_idx : nat) : list string :=
  insert_after id_idx "microsatellite_name" header.

(** The mapping from locus key to Canonical Name that passes 1 and 2
    build. *)
Definition names (header : list string) (id_idx : nat)
    (comp : gmap string (string * Z * Z)) (data : list (list string))
  : gmap string string :=
  let st := pass1 header id_idx comp data in
  locus_final (pass2 (locus_base st) (loci_in_order st)).

(** [out_rows] *)
Definition rewrite_table (header : list string) (id_idx : nat)
    (comp : gmap string (string * Z * Z)) (data : list (list string))
  : list (list string) :=
  new_header header id_idx
    :: (pass3_row (names header id_idx comp data) header id_idx <$> data).

(** [header.index("id")] *)
Definition index (x : string) (l : list string) : option nat :=
  fst <$> list_find (fun y => y = x) l.

(** [main], from the rows of the primer file and of the .compare file
    to the rows written to the output file. *)
Definition main (primers compare : list (list string))
  : outcome (list (list string)) :=
  match load_compare compare with
  | SysExit e => SysExit e
  | Uncaught x => Uncaught x
  | Returned comp =>
      match primers with
      | [] => SysExit PrimerFileEmpty
      | header :: data =>
          match index "id" header with
          | None => SysExit PrimerNoIdColumn
          | Some id_idx =>
              if decide ("forward_primer" ∈ header)
              then Returned (rewrite_table header id_idx comp data)
              else SysExit PrimerNoForwardPrimerColumn
          end
      end
  end.

(** A line the loader cannot use: no number left after trimming, or a
    repeat count that [int] rejects. *)
Definition unusable (names line : list string) : Prop :=
  let row := to_dict names line in
  strip (get_or_empty row "number") = ""
  \/ int_of_cell (get row "fasta1_repeat_number") = None
  \/ int_of_cell (get row "fasta2_repeat_number") = None.


(** The Base Name pass 1 resolves for a newly discovered locus. *)
Definition base_of (comp : gmap string (string * Z * Z)) (locus_num : string)
  : string :=
  match comp !! locus_num with
  | Some (motif, rmin, rmax) => base_name motif rmin rmax
  | None => "NA"
  end.

(** The distinct non-empty keys of a list of keys, each at the place of
    its first occurrence, given the keys seen before. *)
Fixpoint first_seen (seen : gset string) (keys : list string) : list string :=
  match keys with
  | [] => []
  | k :: keys' =>
      if negb (truthy k) then first_seen seen keys'
      else if decide (k ∈ seen) then first_seen seen keys'
      else k :: first_seen ({[k]} ∪ seen) keys'
  end.


(** The invariant of the discovery loop of pass 1: the loci found so far
    are distinct, non-empty, exactly the keys seen, and each has its Base
    Name resolved from [comp]. *)
Record pass1_inv (comp : gmap string (string * Z * Z)) (st : pass1_state)
  : Prop := Pass1Inv {
  inv_nodup : NoDup (loci_in_order st);
  inv_seen : forall x, x ∈ loci_in_order st <-> x ∈ seen_loci st;
  inv_base : forall x, x ∈ loci_in_order st ->
                       locus_base st !! x = Some (base_of comp x);
  inv_nonempty : forall x, x ∈ loci_in_order st -> x <> ""
}.

(** *** Readings of the loader and of the summary, for the properties below *)

(** What the loop body of [load_compare] stores for a row: the key and
    the record, or nothing when the row is skipped. *)
Definition record_of (row : dict_row) : option (string * (string * Z * Z)) :=
  let num := strip (get_or_empty row "number") in
  if negb (truthy num) then None else
  let m1 := upper (strip (get_or_empty row "fasta1_motif")) in
  let m2 := upper (strip (get_or_empty row "fasta2_motif")) in
  let motif := if truthy m1 then m1 else m2 in
  match int_of_cell (get row "fasta1_repeat_number"),
        int_of_cell (get row "fasta2_repeat_number") with
  | Some rep1, Some rep2 => Some (num, (motif, rmin_of rep1 rep2, rmax_of rep1 rep2))
  | _, _ => None
  end.

(** The records the rows of a file hold for the key [k], in file order. *)
Definition records_for (k : string) (rows : list dict_row)
  : list (string * Z * Z) :=
  omap (fun row => match record_of row with
                   | Some (k', r) => if decide (k' = k) then Some r else None
                   | None => None
                   end) rows.

(** The warning of the summary: [len(missing_loci)] when [missing_loci]
    is not empty. *)
Definition warning (header : list string) (id_idx : nat)
    (comp : gmap string (string * Z * Z)) (data : list (list string))
  : option nat :=
  let missing_loci := missing_loci (pass1 header id_idx comp data) in
  if decide (missing_loci = ∅) then None else Some (size missing_loci).

End AddMsatName.

(** ** ssrmmd_filter.py *)

Module SsrmmdFilter.
Import PyStr Csv.

(** [set(s)]: the set of the characters of [s]. *)
Definition char_set (s : string) : gset ascii :=
  list_to_set (list_ascii_of_string s).

Definition is_at_only (motif : string) : bool :=
  bool_decide (char_set (upper motif) ⊆ {[ "A"%char; "T"%char ]}).

Definition is_valid_dna (motif : string) : bool :=
  bool_decide (char_set (upper motif)
                 ⊆ {[ "A"%char; "C"%char; "G"%char; "T"%char ]}).

(** [to_int_or_none(x)]: [int(None)] raises too, and is caught. *)
Definition to_int_or_none (x : cell) : option Z :=
  match x with Field s => int s | PyNone => None end.

(** The command-line options the filter reads. *)
Record args : Type := Args {
  allowed_motif_lengths : string;
  min_repeats : Z;
  keep_at_only : bool
}.

Definition default_args : args := Args "2,3,4" 5 false.

(** [s.split(sep)] for a one-character separator. *)
Fixpoint split (sep : ascii) (s : string) : list string :=
  match s with
  | EmptyString => [EmptyString]
  | String c s' =>
      if Ascii.eqb c sep then EmptyString :: split sep s'
      else match split sep s' with
           | h :: t => String c h :: t
           | [] => [String c EmptyString]
           end
  end.

Definition add_length (acc : outcome (gset Z)) (tok : string) : outcome (gset Z) :=
  match acc with
  | Returned allowed =>
      let tok := strip tok in
      if negb (truthy tok) then Returned allowed
      else match int tok with
           | Some n => Returned ({[n]} ∪ allowed)
           | None => SysExit (FilterBadLength tok)
           end
  | stop => stop
  end.

(** The loop that fills [allowed_lengths]. *)
Definition parse_allowed_lengths (s : string) : outcome (gset Z) :=
  foldl add_length (Returned ∅) (split "," s).

Definition required_cols : list string :=
  ["number";
   "fasta1_id"; "fasta1_motif"; "fasta1_repeat_number"; "fasta1_start"; "fasta1_end";
   "fasta2_id"; "fasta2_motif"; "fasta2_repeat_number"; "fasta2_start"; "fasta2_end";
   "fasta1_left_fs"; "fasta1_left_fs_length";
   "fasta2_left_distance(LD)"; "fasta2_left_identity(NW)";
   "fasta1_right_fs"; "fasta1_right_fs_length";
   "fasta2_right_distance(LD)"; "fasta2_right_identity(NW)";
   "polymorphism"].

(** What the body of [for row in reader] does with one row. *)
Inductive verdict : Type :=
  | Kept (line : list string)
  | Skipped
  | Raised (x : exn).

(** [row.get("polymorphism", "").strip().lower()]: the key is present
    once the header check has passed, so a short line yields [None],
    which has no [strip]. *)
Definition polymorphism_of (row : dict_row) : option string :=
  match cells row !! "polymorphism" with
  | Some PyNone => None
  | Some (Field s) => Some (lower (strip s))
  | None => Some (lower (strip ""))
  end.

Definition filter_row (allowed_lengths : gset Z) (a : args)
    (header : list string) (row : dict_row) : verdict :=
  match polymorphism_of row with
  | None => Raised AttributeError
  | Some poly =>
      if negb (String.eqb poly "yes") then Skipped else
      let m1 := upper (strip (get_or_empty row "fasta1_motif")) in
      let m2 := upper (strip (get_or_empty row "fasta2_motif")) in
      if negb (truthy m1) || negb (truthy m2) then Skipped else
      if negb (String.eqb m1 m2) then Skipped else
      if negb (is_valid_dna m1) then Skipped else
      if negb (bool_decide (Z.of_nat (String.length m1) ∈ allowed_lengths))
      then Skipped else
      match to_int_or_none (get row "fasta1_repeat_number"),
            to_int_or_none (get row "fasta2_repeat_number") with
      | Some r1, Some r2 =>
          if (r1 <? min_repeats a) || (r2 <? min_repeats a) then Skipped else
          if negb (keep_at_only a) && is_at_only m1 then Skipped else
          match writerow header row with
          | Returned line => Kept line
          | SysExit _ => Raised ValueError
          | Uncaught x => Raised x
          end
      | _, _ => Skipped
      end
  end.

(** What a run leaves behind: the lines written to the output file so
    far, and how the run ended ([Returned (total, kept)] after the
    summary). *)
Record run : Type := Run {
  written : list (list string);
  ended : outcome (nat * nat)
}.

Fixpoint filter_rows (allowed_lengths : gset Z) (a : args)
    (header : list string) (rows : list dict_row) (total kept : nat) : run :=
  match rows with
  | [] => Run [] (Returned (total, kept))
  | row :: rows' =>
      match filter_row allowed_lengths a header row with
      | Raised x => Run [] (Uncaught x)
      | Skipped => filter_rows allowed_lengths a header rows' (S total) kept
      | Kept line =>
          let r := filter_rows allowed_lengths a header rows' (S total) (S kept) in
          Run (line :: written r) (ended r)
      end
  end.

Definition missing (fieldnames : list string) : list string :=
  filter (fun c => c ∉ fieldnames) required_cols.

Definition main (a : args) (input : list (list string)) : run :=
  match parse_allowed_lengths (allowed_motif_lengths a) with
  | SysExit e => Run [] (SysExit e)
  | Uncaught x => Run [] (Uncaught x)
  | Returned allowed_lengths =>
      match fieldnames input with
      | None => Run [] (Uncaught TypeError)
      | Some header =>
          match missing header with
          | (_ :: _) as miss => Run [] (SysExit (FilterMissingColumns miss))
          | [] =>
              let r := filter_rows allowed_lengths a header (DictReader input) 0 0 in
              Run (header :: written r) (ended r)
          end
      end
  end.

(** *** The selection criteria, as a predicate on field values *)

Definition is_base (c : ascii) : bool :=
  bool_decide (c ∈ ({[ "A"%char; "C"%char; "G"%char; "T"%char ]} : gset ascii)).

Definition is_a_or_t (c : ascii) : bool :=
  bool_decide (c ∈ ({[ "A"%char; "T"%char ]} : gset ascii)).

(** The criteria of the module docstring on a polymorphism value [p], two
    motif values [m1], [m2] and the two repeat-count cells: [p] is "yes"
    whatever the case; the motifs are non-empty, equal whatever the case
    and made of A, C, G, T; the motif length is allowed; both counts are
    integers at least [min_repeats]; the motif is not AT-only unless
    [keep_at_only]. *)
Definition criteria (allowed_lengths : gset Z) (a : args)
    (p m1 m2 : string) (c1 c2 : cell) : bool :=
  String.eqb (lower p) "yes"
  && (truthy m1 && truthy m2)
  && String.eqb (upper m1) (upper m2)
  && all_chars is_base (upper m1)
  && bool_decide (Z.of_nat (String.length m1) ∈ allowed_lengths)
  && match to_int_or_none c1, to_int_or_none c2 with
     | Some r1, Some r2 => (min_repeats a <=? r1) && (min_repeats a <=? r2)
     | _, _ => false
     end
  && (keep_at_only a || negb (all_chars is_a_or_t (upper m1))).

(** The criteria on the fields of a row as they stand in the file. *)
Definition criteria_as_stated (allowed_lengths : gset Z) (a : args)
    (row : dict_row) : bool :=
  criteria allowed_lengths a
    (get_or_empty row "polymorphism")
    (get_or_empty row "fasta1_motif") (get_or_empty row "fasta2_motif")
    (get row "fasta1_repeat_number") (get row "fasta2_repeat_number").

(** The criteria on the polymorphism and motif fields trimmed of
    surrounding white space. *)
Definition criteria_trimmed (allowed_lengths : gset Z) (a : args)
    (row : dict_row) : bool :=
  criteria allowed_lengths a
    (strip (get_or_empty row "polymorphism"))
    (strip (get_or_empty row "fasta1_motif"))
    (strip (get_or_empty row "fasta2_motif"))
    (get row "fasta1_repeat_number") (get row "fasta2_repeat_number").

Definition is_kept (v : verdict) : bool :=
  match v with Kept _ => true | _ => false end.

End SsrmmdFilter.

(** ** Sample tables *)

Definition compare_header : list string :=
  ["number"; "fasta1_motif"; "fasta1_repeat_number";
   "fasta2_motif"; "fasta2_repeat_number"].

Definition primer_header : list string := ["id"; "forward_primer"; "reverse_primer"].

Definition filter_header : list string := SsrmmdFilter.required_cols.

Definition filter_line (motif1 rep1 motif2 rep2 poly : string) : list string :=
  ["1"; "c1"; motif1; rep1; "10"; "20"; "c2"; motif2; rep2; "30"; "40";
   "L"; "1"; "0"; "1"; "R"; "1"; "0"; "1"; poly].

(** The tables of the specification's examples: loci 66 and 68 share the
    Base Name AC(4-7), locus 67 has no record, the last row has no locus
    key. *)
Definition sample_compare : list (list string) :=
  [compare_header; ["66"; "ac"; "4"; "AC"; "7"]; ["68"; "AC"; "7"; "AC"; "4"]].

Definition sample_comp : gmap string (string * Z * Z) :=
  {[ "66" := ("AC", 4, 7); "68" := ("AC", 4, 7) ]}.

Definition sample_data : list (list string) :=
  [["66.1"; "AAA"; "CCC"]; ["66.2"; "AAT"; "CCG"]; ["67.1"; "GGA"; "TTC"];
   ["68.1"; "GGG"]; ["x"]].

Definition sample_primers : list (list string) := primer_header :: sample_data.

Definition sample_out : list (list string) :=
  [["id"; "microsatellite_name"; "forward_primer"; "reverse_primer"];
   ["66.1"; "AC(4-7).1"; "AAA"; "CCC"]; ["66.2"; "AC(4-7).1"; "AAT"; "CCG"];
   ["67.1"; "NA"; "GGA"; "TTC"]; ["68.1"; "AC(4-7).2"; "GGG"; ""];
   ["x"; "NA"; ""; ""]].

(** * Properties *)

(** ** The model on the specification's examples *)

Example strip_ex : PyStr.strip "  66.1 " = "66.1".
Proof. reflexivity. Qed.
Example upper_ex : PyStr.upper "acGt" = "ACGT".
Proof. reflexivity. Qed.
Example int_ex1 : PyStr.int " -1_0 " = Some (-10).
Proof. reflexivity. Qed.
Example int_ex2 : PyStr.int "1__0" = None.
Proof. reflexivity. Qed.
Example int_ex3 : PyStr.int "7.5" = None.
Proof. reflexivity. Qed.
Example int_ex4 :
  PyStr.int "+007" = Some 7 /\ PyStr.int "" = None /\ PyStr.int "-" = None
  /\ PyStr.int "_5" = None /\ PyStr.int "5_" = None /\ PyStr.int "5 5" = None.
Proof. repeat split. Qed.
Example str_ex : PyStr.str (-37) = "-37" /\ PyStr.str 0 = "0".
Proof. split; reflexivity. Qed.
Example load_compare_ex :
  AddMsatName.load_compare
    [compare_header; ["66"; "ac"; "7"; "AC"; "4"]; []; ["x"; "GT"; "n/a"; "GT"; "5"]]
  = Returned {[ "66" := ("AC", 4, 7) ]}.
Proof. vm_compute. reflexivity. Qed.

Example extract_ex :
  AddMsatName.extract_locus_num " 66.1.2" = "66" /\ AddMsatName.extract_locus_num "x6" = "".
Proof. split; reflexivity. Qed.

Example main_ex : AddMsatName.main sample_primers sample_compare = Returned sample_out.
Proof. vm_compute. reflexivity. Qed.

Example load_sample_ex : AddMsatName.load_compare sample_compare = Returned sample_comp.
Proof. vm_compute. reflexivity. Qed.

Example first_seen_ex :
  AddMsatName.loci_in_order
    (AddMsatName.pass1 primer_header 0 sample_comp sample_data)
  = ["66"; "67"; "68"].
Proof. vm_compute. reflexivity. Qed.

Example allowed_ex :
  SsrmmdFilter.parse_allowed_lengths "2,3,4" = Returned ({[2; 3; 4]} : gset Z).
Proof. vm_compute. reflexivity. Qed.

Example filter_ex :
  SsrmmdFilter.main SsrmmdFilter.default_args
    [filter_header;
     filter_line "ac" "7" "AC" "5" "Yes";
     filter_line "AT" "7" "AT" "5" "yes";
     filter_line "ACG" "4" "ACG" "5" "yes";
     filter_line "ACG" "9" "ACG" "5" "no";
     [];
     filter_line "ACGT" "9" "ACGT" "5" "yes"]
  = SsrmmdFilter.Run
      [filter_header; filter_line "ac" "7" "AC" "5" "Yes";
       filter_line "ACGT" "9" "ACGT" "5" "yes"]
      (Returned (5%nat, 2%nat)).
Proof. vm_compute. reflexivity. Qed.

(** ** Facts about the text primitives *)

Section Text.
Import PyStr.

Lemma truthy_false (s : string) : truthy s = false <-> s = "".
Proof. destruct s; simpl; split; congruence. Qed.

Lemma truthy_true (s : string) : truthy s = true <-> s <> "".
Proof. destruct s; simpl; split; congruence. Qed.

Lemma between_spec lo hi c :
  between lo hi c = true <-> (lo <= code c /\ code c <= hi)%N.
Proof.
  unfold between. rewrite andb_true_iff, !N.leb_le. reflexivity.
Qed.

Lemma code_lt c : (code c < 256)%N.
Proof. apply N_ascii_bounded. Qed.

Lemma code_ascii_of_N n : (n < 256)%N -> code (ascii_of_N n) = n.
Proof. apply N_ascii_embedding. Qed.

Lemma upper_char_not_lower c : islower (upper_char c) = false.
Proof.
  unfold upper_char. destruct (islower c) eqn:E; [|exact E].
  apply between_spec in E. apply not_true_is_false. intros H.
  apply between_spec in H. pose proof (code_lt c).
  rewrite code_ascii_of_N in H by lia. lia.
Qed.

Lemma upper_char_idem c : upper_char (upper_char c) = upper_char c.
Proof.
  unfold upper_char at 1. now rewrite upper_char_not_lower.
Qed.

Lemma upper_idem s : upper (upper s) = upper s.
Proof.
  unfold upper. induction s as [|c s IH]; simpl; [reflexivity|].
  now rewrite upper_char_idem, IH.
Qed.

Lemma upper_no_lower s : all_chars (fun c => negb (islower c)) (upper s) = true.
Proof.
  unfold upper. induction s as [|c s IH]; simpl; [reflexivity|].
  now rewrite upper_char_not_lower, IH.
Qed.

Lemma isdigit_not_space c : isdigit c = true -> isspace c = false.
Proof.
  unfold isdigit, isspace. intros H. apply between_spec in H.
  apply orb_false_iff; split; apply not_true_is_false; intros G;
    apply between_spec in G; lia.
Qed.

Lemma rstrip_cons_nonspace c s :
  isspace c = false -> exists r, rstrip (String c s) = String c r.
Proof.
  intros H. simpl. destruct (rstrip s); rewrite ?H; eauto.
Qed.

Lemma lstrip_head s :
  lstrip s = "" \/ exists c r, lstrip s = String c r /\ isspace c = false.
Proof.
  induction s as [|c s IH]; simpl; [now left|].
  destruct (isspace c) eqn:E; [exact IH|]. right. eauto.
Qed.

Lemma lstrip_nonspace c s : isspace c = false -> lstrip (String c s) = String c s.
Proof. intros H. simpl. now rewrite H. Qed.

Lemma take_digits_rstrip s :
  AddMsatName.take_digits (rstrip s) = AddMsatName.take_digits s.
Proof.
  induction s as [|c s IH]; [reflexivity|].
  cbn [rstrip AddMsatName.take_digits].
  destruct (isdigit c) eqn:D.
  - pose proof (isdigit_not_space c D) as Sp.
    destruct (rstrip s) eqn:R.
    + rewrite Sp. cbn. rewrite D. now rewrite <- IH.
    + rewrite <- IH. cbn [AddMsatName.take_digits]. now rewrite D.
  - destruct (rstrip s); [destruct (isspace c)|]; cbn; rewrite ?D; reflexivity.
Qed.

(** Trimming the id first, as [main] does, changes nothing for the
    regex: the locus key is that of the raw id. *)
Lemma extract_locus_num_strip s :
  AddMsatName.extract_locus_num (strip s) = AddMsatName.extract_locus_num s.
Proof.
  unfold AddMsatName.extract_locus_num, AddMsatName.re_match, strip.
  assert (H : AddMsatName.take_digits (lstrip (rstrip (lstrip s)))
              = AddMsatName.take_digits (lstrip s)).
  { destruct (lstrip_head s) as [E | (c & r & E & Hc)]; rewrite E; [reflexivity|].
    destruct (rstrip_cons_nonspace c r Hc) as [r' Hr].
    rewrite <- (take_digits_rstrip (String c r)). rewrite Hr.
    now rewrite lstrip_nonspace. }
  now rewrite H.
Qed.

Lemma extract_empty_iff s :
  AddMsatName.extract_locus_num s = "" <-> AddMsatName.re_match s = None.
Proof.
  unfold AddMsatName.extract_locus_num, AddMsatName.re_match.
  destruct (AddMsatName.take_digits (lstrip s)); split; congruence.
Qed.

(** *** Appending and splitting *)

Lemma append_nil_l (b : string) : "" ++ b = b.
Proof. reflexivity. Qed.

Lemma append_cons x (a b : string) : String x a ++ b = String x (a ++ b).
Proof. reflexivity. Qed.

Lemma append_assoc (a b c : string) : (a ++ b) ++ c = a ++ (b ++ c).
Proof.
  induction a as [|x a IH]; [reflexivity|].
  now rewrite !append_cons, IH.
Qed.

Lemma occurs_append c a b : occurs c (a ++ b) = occurs c a || occurs c b.
Proof.
  induction a as [|x a IH]; [reflexivity|].
  rewrite append_cons. simpl. now rewrite IH, orb_assoc.
Qed.

(** A string is cut in one way only at the last occurrence of [c]. *)
Lemma split_last c (a1 a2 b1 b2 : string) :
  occurs c b1 = false -> occurs c b2 = false ->
  a1 ++ String c b1 = a2 ++ String c b2 -> a1 = a2 /\ b1 = b2.
Proof.
  intros H1 H2. revert a2.
  induction a1 as [|x a1 IH]; intros [|y a2] E;
    rewrite ?append_nil_l, ?append_cons in E.
  - now inversion E.
  - inversion E; subst. rewrite occurs_append in H1. simpl in H1.
    rewrite Ascii.eqb_refl, orb_true_r in H1. discriminate.
  - inversion E; subst. rewrite occurs_append in H2. simpl in H2.
    rewrite Ascii.eqb_refl, orb_true_r in H2. discriminate.
  - inversion E; subst. destruct (IH a2) as [-> ->]; auto.
Qed.

(** *** Decimal rendering *)

Lemma string_of_uint_digits d : all_chars isdigit (NilZero.string_of_uint d) = true.
Proof.
  assert (H : forall u, all_chars isdigit (NilEmpty.string_of_uint u) = true).
  { induction u as [|u IH|u IH|u IH|u IH|u IH|u IH|u IH|u IH|u IH|u IH];
      cbn [NilEmpty.string_of_uint all_chars]; rewrite ?IH; reflexivity. }
  destruct d; try apply H. reflexivity.
Qed.

Lemma all_chars_occurs p c s :
  all_chars p s = true -> p c = false -> occurs c s = false.
Proof.
  intros H Hc. induction s as [|x s IH]; simpl in *; [reflexivity|].
  apply andb_true_iff in H as [Hx Hs]. rewrite (IH Hs), orb_false_r.
  destruct (Ascii.eqb_spec x c); [subst; congruence | reflexivity].
Qed.

Lemma str_no_dot n : occurs "." (str n) = false.
Proof.
  unfold str, NilZero.string_of_int.
  destruct (Z.to_int n); simpl;
    apply (all_chars_occurs isdigit); auto using string_of_uint_digits.
Qed.

Lemma to_int_proper n :
  Z.to_int n <> Decimal.Pos Decimal.Nil /\ Z.to_int n <> Decimal.Neg Decimal.Nil.
Proof.
  destruct n as [|p|p]; simpl; split; try discriminate;
    intros [= H]; now apply DecimalPos.Unsigned.to_uint_nonnil in H.
Qed.

Lemma str_inj n m : str n = str m -> n = m.
Proof.
  intros H. apply DecimalZ.to_int_inj.
  destruct (to_int_proper n) as [n1 n2], (to_int_proper m) as [m1 m2].
  pose proof (NilZero.isi (Z.to_int n) n1 n2) as Hn.
  pose proof (NilZero.isi (Z.to_int m) m1 m2) as Hm.
  unfold str in H. rewrite H in Hn. congruence.
Qed.

End Text.

(** ** The comparison-index loader *)

Section Loader.
Import PyStr Csv AddMsatName.

Lemma rmin_of_min rep1 rep2 : rmin_of rep1 rep2 = Z.min rep1 rep2.
Proof. unfold rmin_of. destruct (Z.leb_spec rep1 rep2); lia. Qed.

Lemma rmax_of_max rep1 rep2 : rmax_of rep1 rep2 = Z.max rep1 rep2.
Proof.
  unfold rmax_of. rewrite Z.geb_leb. destruct (Z.leb_spec rep1 rep2); lia.
Qed.

(** The cells [DictReader] makes of a line under the header
    [compare_header]. *)
Lemma compare_line_cells num m1 s1 m2 s2 :
  let row := to_dict compare_header [num; m1; s1; m2; s2] in
  get_or_empty row "number" = num
  /\ get_or_empty row "fasta1_motif" = m1
  /\ get_or_empty row "fasta2_motif" = m2
  /\ get row "fasta1_repeat_number" = Field s1
  /\ get row "fasta2_repeat_number" = Field s2.
Proof. repeat split. Qed.

(** C5. The loader's two conditionals compute the plain minimum and
    maximum of the two repeat counts, ties included, so the Base Name is
    the same with the counts in reversed order, and a line of the file
    with its two repeat-count fields exchanged loads the same record. *)
Theorem rmin_rmax_are_min_max (rep1 rep2 : Z) (motif : string) :
  rmin_of rep1 rep2 = Z.min rep1 rep2
  /\ rmax_of rep1 rep2 = Z.max rep1 rep2
  /\ base_name motif (rmin_of rep1 rep2) (rmax_of rep1 rep2)
     = base_name motif (rmin_of rep2 rep1) (rmax_of rep2 rep1)
  /\ (forall (comp : gmap string (string * Z * Z)) num m1 m2 s1 s2,
        load_row comp (to_dict compare_header [num; m1; s1; m2; s2])
        = load_row comp (to_dict compare_header [num; m1; s2; m2; s1])).
Proof.
  rewrite !rmin_of_min, !rmax_of_max.
  rewrite (Z.min_comm rep2 rep1), (Z.max_comm rep2 rep1).
  repeat split. intros comp num m1 m2 s1 s2.
  destruct (compare_line_cells num m1 s1 m2 s2) as (E1 & E2 & E3 & E4 & E5).
  destruct (compare_line_cells num m1 s2 m2 s1) as (F1 & F2 & F3 & F4 & F5).
  unfold load_row. rewrite E1, E2, E3, E4, E5, F1, F2, F3, F4, F5.
  simpl int_of_cell. destruct (negb _); [reflexivity|].
  destruct (int s1) as [r1|], (int s2) as [r2|]; try reflexivity.
  rewrite !rmin_of_min, !rmax_of_max.
  now rewrite (Z.min_comm r2 r1), (Z.max_comm r2 r1).
Qed.

Lemma missing_columns_nil names :
  missing_columns names = [] <-> forall c, c ∈ needed -> c ∈ names.
Proof.
  unfold missing_columns. split.
  - intros E c Hc. destruct (decide (c ∈ names)) as [|Hn]; [assumption|].
    assert (c ∈ filter (fun c => c ∉ names) needed) as Hf
      by (apply list_elem_of_filter; auto).
    rewrite E in Hf. now apply elem_of_nil in Hf.
  - intros H. destruct (filter _ needed) as [|c l] eqn:E; [reflexivity|].
    assert (c ∈ filter (fun c => c ∉ names) needed) as Hf
      by (rewrite E; apply list_elem_of_here).
    apply list_elem_of_filter in Hf as [Hn Hc]. now apply H in Hc.
Qed.

Lemma load_row_unusable comp names line :
  unusable names line -> load_row comp (to_dict names line) = comp.
Proof.
  unfold unusable, load_row. cbv zeta. intros [H | [H | H]].
  - rewrite H. reflexivity.
  - rewrite H. destruct (negb _); reflexivity.
  - rewrite H. destruct (negb _); [reflexivity|].
    destruct (int_of_cell (get _ "fasta1_repeat_number")); reflexivity.
Qed.

Lemma DictReader_drop_unusable names pre line post comp :
  unusable names line ->
  foldl load_row comp (DictReader (names :: pre ++ line :: post))
  = foldl load_row comp (DictReader (names :: pre ++ post)).
Proof.
  intros H. unfold DictReader.
  rewrite !filter_app, filter_cons, !fmap_app, !foldl_app.
  destruct (decide (blank line = false)); [|reflexivity].
  rewrite fmap_cons. simpl. now rewrite load_row_unusable.
Qed.

End Loader.

(** ** Pass 1: locus discovery *)

Section Pass1.
Import PyStr Csv AddMsatName.
Variables (header : list string) (id_idx : nat).
Variable comp : gmap string (string * Z * Z).

Local Abbreviation step := (pass1_step header id_idx comp).
Local Abbreviation key := (locus_of header id_idx).

(** What one step does, by cases on the row's locus key. *)
Lemma pass1_step_old st row :
  key row = "" \/ key row ∈ seen_loci st -> step st row = st.
Proof.
  unfold pass1_step. intros [H | H].
  - now rewrite H.
  - destruct (negb _); [reflexivity|]. now rewrite decide_True.
Qed.

Lemma pass1_step_new st row :
  key row <> "" -> key row ∉ seen_loci st ->
  loci_in_order (step st row) = (loci_in_order st ++ [key row])%list
  /\ seen_loci (step st row) = {[key row]} ∪ seen_loci st
  /\ locus_base (step st row)
     = <[key row := base_of comp (key row)]> (locus_base st).
Proof.
  intros H1 H2. unfold pass1_step, base_of.
  apply truthy_true in H1. rewrite H1. simpl negb. cbv iota.
  rewrite decide_False by assumption.
  destruct (comp !! key row) as [[[motif rmin] rmax]|]; auto.
Qed.

Lemma pass1_inv_init : pass1_inv comp pass1_init.
Proof.
  split; simpl.
  - constructor.
  - intros x. split; intros H; [now apply elem_of_nil in H | set_solver].
  - intros x H. now apply elem_of_nil in H.
  - intros x H. now apply elem_of_nil in H.
Qed.

Lemma pass1_inv_step st row : pass1_inv comp st -> pass1_inv comp (step st row).
Proof.
  intros [Hnd Hseen Hbase Hne].
  destruct (decide (key row = "")) as [E|E];
    [rewrite pass1_step_old by auto; now split|].
  destruct (decide (key row ∈ seen_loci st)) as [S|S];
    [rewrite pass1_step_old by auto; now split|].
  destruct (pass1_step_new st row E S) as (Hl & Hs & Hb).
  split; rewrite ?Hl, ?Hs, ?Hb.
  - apply NoDup_app. split; [assumption|]. split; [|apply NoDup_singleton].
    intros x Hx Hin. apply list_elem_of_singleton in Hin. subst.
    now apply Hseen in Hx.
  - intros x.
    rewrite elem_of_app, list_elem_of_singleton, Hseen, elem_of_union, elem_of_singleton.
    tauto.
  - intros x Hx. destruct (decide (x = key row)) as [->|Hd].
    + apply lookup_insert_eq.
    + rewrite lookup_insert_ne by congruence. apply Hbase.
      apply elem_of_app in Hx as [Hx|Hx]; [assumption|].
      now apply list_elem_of_singleton in Hx.
  - intros x Hx. apply elem_of_app in Hx as [Hx|Hx]; [now apply Hne|].
    apply list_elem_of_singleton in Hx. now subst.
Qed.

Lemma pass1_inv_fold data st :
  pass1_inv comp st -> pass1_inv comp (foldl step st data).
Proof.
  revert st. induction data as [|row data IH]; intros st H; simpl; auto.
  apply IH. now apply pass1_inv_step.
Qed.

Lemma pass1_inv_final data : pass1_inv comp (pass1 header id_idx comp data).
Proof. apply pass1_inv_fold, pass1_inv_init. Qed.

(** The discovered loci are the non-empty keys of the rows. *)
Lemma pass1_loci_fold data st x :
  pass1_inv comp st ->
  x ∈ loci_in_order (foldl step st data)
  <-> x ∈ loci_in_order st \/ (x <> "" /\ exists row, row ∈ data /\ key row = x).
Proof.
  revert st. induction data as [|row data IH]; intros st Hinv; simpl.
  - split; [auto|]. intros [H | (_ & row & H & _)]; [assumption|].
    now apply elem_of_nil in H.
  - rewrite IH by now apply pass1_inv_step.
    destruct (decide (key row = "")) as [E|E].
    { rewrite pass1_step_old by auto. split.
      - intros [H | (Hx & r & Hr & Hk)]; [now left|].
        right. split; [assumption|]. exists r. split; [now right | assumption].
      - intros [H | (Hx & r & Hr & Hk)]; [now left|].
        apply elem_of_cons in Hr as [->|Hr]; [congruence|]. right. eauto. }
    destruct (decide (key row ∈ seen_loci st)) as [S|S].
    { rewrite pass1_step_old by auto. split.
      - intros [H | (Hx & r & Hr & Hk)]; [now left|].
        right. split; [assumption|]. exists r. split; [now right | assumption].
      - intros [H | (Hx & r & Hr & Hk)]; [now left|].
        apply elem_of_cons in Hr as [->|Hr]; [|right; eauto].
        left. subst. now apply (inv_seen comp st Hinv). }
    destruct (pass1_step_new st row E S) as (Hl & _ & _). rewrite Hl.
    rewrite elem_of_app, list_elem_of_singleton. split.
    + intros [[H | ->] | (Hx & r & Hr & Hk)]; [now left | |].
      * right. split; [assumption|]. exists row. split; [now left | reflexivity].
      * right. split; [assumption|]. exists r. split; [now right | assumption].
    + intros [H | (Hx & r & Hr & Hk)]; [now left; left|].
      apply elem_of_cons in Hr as [->|Hr]; [left; right; congruence|].
      right. eauto.
Qed.

Lemma pass1_loci data x :
  x ∈ loci_in_order (pass1 header id_idx comp data)
  <-> x <> "" /\ exists row, row ∈ data /\ key row = x.
Proof.
  unfold pass1. rewrite pass1_loci_fold by apply pass1_inv_init. simpl.
  split; [|auto]. intros [H|H]; [now apply elem_of_nil in H | assumption].
Qed.

(** Pass 1 lists the loci in first-seen order. *)
Lemma pass1_first_seen_fold data st :
  loci_in_order (foldl step st data)
  = (loci_in_order st ++ first_seen (seen_loci st) (key <$> data))%list.
Proof.
  revert st. induction data as [|row data IH]; intros st.
  - simpl. now rewrite app_nil_r.
  - rewrite fmap_cons. cbn [foldl first_seen]. rewrite IH.
    destruct (decide (key row = "")) as [E|E].
    { rewrite pass1_step_old by auto. now rewrite E. }
    destruct (decide (key row ∈ seen_loci st)) as [S|S].
    { rewrite pass1_step_old by auto.
      apply truthy_true in E. rewrite E. simpl negb. cbv iota.
      reflexivity. }
    destruct (pass1_step_new st row E S) as (Hl & Hs & _). rewrite Hl, Hs.
    apply truthy_true in E. rewrite E. simpl negb. cbv iota.
    now rewrite <- app_assoc.
Qed.

Lemma pass1_first_seen data :
  loci_in_order (pass1 header id_idx comp data) = first_seen ∅ (key <$> data).
Proof. unfold pass1. now rewrite pass1_first_seen_fold. Qed.

End Pass1.

(** ** Pass 2: disambiguation *)

Section Pass2.
Import PyStr Csv AddMsatName.
Variable lb : gmap string string.

Local Abbreviation step := (pass2_step lb).
Local Abbreviation base := (base_get lb).

Lemma pass2_step_NA st x :
  base x = "NA" ->
  step st x = Pass2 (base_counts st) (<[x := "NA"]> (locus_final st)).
Proof. intros H. unfold pass2_step. now rewrite decide_True. Qed.

Lemma pass2_step_named st x :
  base x <> "NA" ->
  step st x
  = Pass2 (<[base x := count_of st (base x) + 1]> (base_counts st))
          (<[x := final_name (base x) (count_of st (base x) + 1)]> (locus_final st)).
Proof.
  intros H. unfold pass2_step. rewrite decide_False by assumption.
  cbv zeta. now rewrite lookup_insert_eq.
Qed.

Lemma pass2_count_same st x :
  base x <> "NA" -> count_of (step st x) (base x) = count_of st (base x) + 1.
Proof.
  intros H. rewrite pass2_step_named by assumption.
  unfold count_of at 1. simpl. now rewrite lookup_insert_eq.
Qed.

Lemma pass2_count_other st x b :
  base x <> b -> count_of (step st x) b = count_of st b.
Proof.
  intros H. destruct (decide (base x = "NA")) as [E|E].
  - now rewrite pass2_step_NA.
  - rewrite pass2_step_named by assumption.
    unfold count_of at 1. simpl. now rewrite lookup_insert_ne.
Qed.

Lemma pass2_final_here st x :
  locus_final (step st x) !! x
  = Some (if decide (base x = "NA") then "NA"
          else final_name (base x) (count_of st (base x) + 1)).
Proof.
  destruct (decide (base x = "NA")) as [E|E].
  - rewrite pass2_step_NA by assumption. apply lookup_insert_eq.
  - rewrite pass2_step_named by assumption. apply lookup_insert_eq.
Qed.

Lemma pass2_final_other st x y :
  x <> y -> locus_final (step st x) !! y = locus_final st !! y.
Proof.
  intros H. destruct (decide (base x = "NA")) as [E|E].
  - rewrite pass2_step_NA by assumption. now apply lookup_insert_ne.
  - rewrite pass2_step_named by assumption. now apply lookup_insert_ne.
Qed.

Lemma pass2_final_notin l st y :
  y ∉ l -> locus_final (foldl step st l) !! y = locus_final st !! y.
Proof.
  revert st. induction l as [|x l IH]; intros st H; simpl; [reflexivity|].
  apply not_elem_of_cons in H as [H1 H2].
  rewrite IH by assumption. apply pass2_final_other. congruence.
Qed.

(** The suffixes handed out for one Base Name, from any state of the
    counters: the loci carrying it get the next values in order. *)
Lemma pass2_suffixes_from b l st :
  b <> "NA" -> NoDup l ->
  (fun x => locus_final (foldl step st l) !! x) <$> filter (fun x => base x = b) l
  = (fun k => Some (final_name b (count_of st b + Z.of_nat k)))
      <$> seq 1 (length (filter (fun x => base x = b) l)).
Proof.
  intros Hb. revert st. induction l as [|x l IH]; intros st Hnd; [reflexivity|].
  apply NoDup_cons in Hnd as [Hx Hnd]. simpl foldl.
  destruct (decide (base x = b)) as [E|E].
  - rewrite filter_cons_True by assumption. simpl length. simpl seq.
    rewrite !fmap_cons. f_equal.
    + rewrite pass2_final_notin by assumption. rewrite pass2_final_here.
      rewrite E, decide_False by assumption. reflexivity.
    + rewrite IH by assumption. rewrite <- (fmap_S_seq 1), <- list_fmap_compose.
      apply list_fmap_ext. intros _ k _. simpl.
      rewrite <- E at 2. rewrite pass2_count_same by congruence. rewrite E.
      do 2 f_equal. lia.
  - rewrite filter_cons_False by assumption. rewrite IH by assumption.
    now rewrite pass2_count_other.
Qed.

Lemma pass2_final_NA l st x :
  base x = "NA" ->
  x ∈ l \/ locus_final st !! x = Some "NA" ->
  locus_final (foldl step st l) !! x = Some "NA".
Proof.
  intros Hx. revert st. induction l as [|y l IH]; intros st H; simpl.
  - destruct H as [H|H]; [now apply elem_of_nil in H | assumption].
  - apply IH. destruct (decide (y = x)) as [->|D].
    + right. rewrite pass2_final_here. now rewrite decide_True.
    + destruct H as [H|H].
      * apply elem_of_cons in H as [H|H]; [congruence | now left].
      * right. now rewrite pass2_final_other.
Qed.

Lemma pass2_final_named l st x :
  base x <> "NA" ->
  x ∈ l \/ (exists i, locus_final st !! x = Some (final_name (base x) i)) ->
  exists i, locus_final (foldl step st l) !! x = Some (final_name (base x) i).
Proof.
  intros Hx. revert st. induction l as [|y l IH]; intros st H; simpl.
  - destruct H as [H|H]; [now apply elem_of_nil in H | assumption].
  - apply IH. destruct (decide (y = x)) as [->|D].
    + right. rewrite pass2_final_here. rewrite decide_False by assumption. eauto.
    + destruct H as [H|H].
      * apply elem_of_cons in H as [H|H]; [congruence | now left].
      * right. now rewrite pass2_final_other.
Qed.

Lemma pass2_final_dom l st x :
  is_Some (locus_final (foldl step st l) !! x) ->
  x ∈ l \/ is_Some (locus_final st !! x).
Proof.
  destruct (decide (x ∈ l)) as [H|H]; [now left|].
  rewrite pass2_final_notin by assumption. now right.
Qed.

(** Leaving the unmatched loci out of the walk changes neither the
    counters nor the name of any matched locus. *)
Lemma pass2_without_NA l st st' :
  base_counts st = base_counts st' ->
  (forall x, base x <> "NA" -> locus_final st !! x = locus_final st' !! x) ->
  base_counts (foldl step st l)
  = base_counts (foldl step st' (filter (fun x => base x <> "NA") l))
  /\ forall x, base x <> "NA" ->
       locus_final (foldl step st l) !! x
       = locus_final (foldl step st' (filter (fun x => base x <> "NA") l)) !! x.
Proof.
  revert st st'. induction l as [|y l IH]; intros st st' Hc Hf; [now split|].
  simpl foldl. destruct (decide (base y = "NA")) as [E|E].
  - rewrite filter_cons_False by auto. apply IH.
    + now rewrite pass2_step_NA.
    + intros x Hx. rewrite pass2_final_other by congruence. now apply Hf.
  - rewrite filter_cons_True by assumption. simpl foldl. apply IH.
    + rewrite !pass2_step_named by assumption. simpl.
      unfold count_of. now rewrite Hc.
    + intros x Hx. destruct (decide (y = x)) as [->|D].
      * rewrite !pass2_final_here. unfold count_of. now rewrite Hc.
      * rewrite !pass2_final_other by assumption. now apply Hf.
Qed.

End Pass2.

(** ** Names as strings *)

Section Names.
Import PyStr Csv AddMsatName.

Lemma final_name_cut b i : final_name b i = b ++ String "." (str i).
Proof. reflexivity. Qed.

Lemma final_name_inj b b' i j :
  final_name b i = final_name b' j -> b = b' /\ i = j.
Proof.
  rewrite !final_name_cut. intros H.
  apply split_last in H as [Hb Hs]; auto using str_no_dot.
  split; [assumption | now apply str_inj].
Qed.

Lemma final_name_not_NA b i : final_name b i <> "NA".
Proof.
  intros H. assert (occurs "." (final_name b i) = true) as Ho.
  { rewrite final_name_cut, occurs_append. simpl. apply orb_true_r. }
  rewrite H in Ho. discriminate.
Qed.

Lemma base_name_not_NA motif rmin rmax : base_name motif rmin rmax <> "NA".
Proof.
  intros H. assert (occurs "(" (base_name motif rmin rmax) = true) as Ho.
  { unfold base_name. rewrite occurs_append.
    change ("(" ++ ?s) with (String "(" s). simpl. apply orb_true_r. }
  rewrite H in Ho. discriminate.
Qed.

Lemma base_of_NA comp k : base_of comp k = "NA" <-> comp !! k = None.
Proof.
  unfold base_of. destruct (comp !! k) as [[[motif rmin] rmax]|].
  - split; [|discriminate]. intros H. now apply base_name_not_NA in H.
  - split; reflexivity.
Qed.

End Names.

(** ** The locus name assigner *)

Section Naming.
Import PyStr Csv AddMsatName.
Variables (header : list string) (id_idx : nat).
Variable comp : gmap string (string * Z * Z).
Variable data : list (list string).

Local Abbreviation st1 := (pass1 header id_idx comp data).
Local Abbreviation loci := (loci_in_order (pass1 header id_idx comp data)).
Local Abbreviation lbase := (locus_base (pass1 header id_idx comp data)).
Local Abbreviation final := (names header id_idx comp data).

Lemma filter_ext_elem {A} (P Q : A -> Prop)
    `{!forall x, Decision (P x)} `{!forall x, Decision (Q x)} (l : list A) :
  (forall x, x ∈ l -> P x <-> Q x) -> filter P l = filter Q l.
Proof.
  induction l as [|x l IH]; intros Hpq; [reflexivity|].
  assert (filter P l = filter Q l) as E.
  { apply IH. intros y Hy. apply Hpq. now right. }
  destruct (decide (P x)) as [p|p].
  - rewrite !filter_cons_True; [now rewrite E | | assumption].
    apply Hpq; [now left | assumption].
  - rewrite !filter_cons_False; [assumption | | assumption].
    intros q. apply p. apply Hpq; [now left | assumption].
Qed.

Lemma lbase_of x : x ∈ loci -> base_get lbase x = base_of comp x.
Proof.
  intros H. unfold base_get.
  now rewrite (inv_base _ _ (pass1_inv_final header id_idx comp data) x H).
Qed.

Lemma final_is_Some x : is_Some (final !! x) -> x ∈ loci.
Proof.
  intros H. apply pass2_final_dom in H as [H|H]; [assumption|].
  simpl in H. rewrite lookup_empty in H. now destruct H.
Qed.

Lemma final_unmatched x : x ∈ loci -> comp !! x = None -> final !! x = Some "NA".
Proof.
  intros H Hc. apply pass2_final_NA; [|now left].
  rewrite lbase_of by assumption. now apply base_of_NA.
Qed.

Lemma final_matched x :
  x ∈ loci -> comp !! x <> None ->
  exists i, final !! x = Some (final_name (base_of comp x) i).
Proof.
  intros H Hc. rewrite <- lbase_of by assumption.
  apply pass2_final_named; [|now left].
  rewrite lbase_of by assumption. now rewrite base_of_NA.
Qed.

Lemma loci_with_base b :
  filter (fun x => base_get lbase x = b) loci
  = filter (fun x => base_of comp x = b) loci.
Proof. apply filter_ext_elem. intros x Hx. now rewrite lbase_of. Qed.

Lemma suffixes_of_base b :
  b <> "NA" ->
  (fun x => final !! x) <$> filter (fun x => base_of comp x = b) loci
  = (fun k => Some (final_name b (Z.of_nat k)))
      <$> seq 1 (length (filter (fun x => base_of comp x = b) loci)).
Proof.
  intros Hb. rewrite <- loci_with_base.
  unfold names, pass2. rewrite (pass2_suffixes_from lbase b loci pass2_init Hb).
  - apply list_fmap_ext. intros _ k _. reflexivity.
  - apply (inv_nodup _ _ (pass1_inv_final header id_idx comp data)).
Qed.

(** The name pass 3 inserts depends on the row through its locus key
    only. *)
Lemma ms_name_key r1 r2 :
  locus_of header id_idx r1 = locus_of header id_idx r2 ->
  ms_name final header id_idx r1 = ms_name final header id_idx r2.
Proof. unfold ms_name. now intros ->. Qed.

Lemma ms_name_NA row :
  locus_of header id_idx row = "" \/ comp !! locus_of header id_idx row = None ->
  ms_name final header id_idx row = "NA".
Proof.
  intros H. unfold ms_name.
  destruct (final !! locus_of header id_idx row) as [v|] eqn:E; [|reflexivity].
  assert (locus_of header id_idx row ∈ loci) as Hin by (apply final_is_Some; eauto).
  destruct H as [H|H].
  - apply pass1_loci in Hin as [Hne _]. contradiction.
  - rewrite (final_unmatched _ Hin H) in E. now injection E as <-.
Qed.

Lemma ms_name_matched row :
  row ∈ data ->
  locus_of header id_idx row <> "" ->
  comp !! locus_of header id_idx row <> None ->
  exists i, final !! locus_of header id_idx row
            = Some (final_name (base_of comp (locus_of header id_idx row)) i).
Proof.
  intros Hr Hk Hc. apply final_matched; [|assumption].
  apply pass1_loci. eauto.
Qed.

End Naming.

(** ** The table rewriter *)

Section Rewriter.
Import PyStr Csv AddMsatName.

Lemma normalize_pad (header row : list string) :
  normalize header row
  = (row ++ replicate (length header - length row)%nat "")%list.
Proof.
  unfold normalize. destruct (Nat.ltb_spec (length row) (length header)) as [H|H].
  - rewrite take_app, take_ge by lia. rewrite take_replicate.
    now replace (min (length header - length row) (length header))%nat
      with (length header - length row)%nat by lia.
  - replace (length header - length row)%nat with 0%nat by lia.
    simpl. now rewrite app_nil_r.
Qed.

Lemma normalize_length (header row : list string) :
  length (normalize header row) = max (length row) (length header).
Proof. rewrite normalize_pad, length_app, length_replicate. lia. Qed.

Lemma normalize_long (header row : list string) :
  (length header <= length row)%nat -> normalize header row = row.
Proof.
  intros H. rewrite normalize_pad.
  replace (length header - length row)%nat with 0%nat by lia.
  simpl. apply app_nil_r.
Qed.

Lemma index_lookup x (l : list string) i :
  index x l = Some i -> l !! i = Some x /\ (i < length l)%nat.
Proof.
  unfold index. intros H.
  destruct (list_find _ l) as [[j y]|] eqn:E; [|discriminate].
  simpl in H. injection H as ->.
  apply list_find_Some in E as (Hl & -> & _).
  split; [assumption | now apply lookup_lt_Some in Hl].
Qed.

(** [row[id_idx]] never raises on a normalized row. *)
Lemma normalize_lookup_id (header row : list string) i :
  (i < length header)%nat -> is_Some (normalize header row !! i).
Proof.
  intros H. apply lookup_lt_is_Some. rewrite normalize_length. lia.
Qed.

Lemma insert_after_length i x (row : list string) :
  length (insert_after i x row) = S (length row).
Proof.
  unfold insert_after. rewrite !length_app, length_take, length_drop. simpl. lia.
Qed.

Lemma insert_after_before i x (row : list string) j :
  (j <= i)%nat -> (i < length row)%nat -> insert_after i x row !! j = row !! j.
Proof.
  intros Hj Hi. unfold insert_after.
  rewrite lookup_app_l by (rewrite length_take; lia).
  apply lookup_take_lt. lia.
Qed.

Lemma insert_after_here i x (row : list string) :
  (i < length row)%nat -> insert_after i x row !! S i = Some x.
Proof.
  intros Hi. unfold insert_after.
  rewrite lookup_app_r by (rewrite length_take; lia).
  rewrite length_take.
  now replace (S i - min (i + 1) (length row))%nat with 0%nat by lia.
Qed.

Lemma insert_after_beyond i x (row : list string) j :
  (i < j)%nat -> (i < length row)%nat -> insert_after i x row !! S j = row !! j.
Proof.
  intros Hj Hi. unfold insert_after.
  rewrite lookup_app_r by (rewrite length_take; lia).
  rewrite length_take.
  replace (S j - min (i + 1) (length row))%nat with (S (j - S i)) by lia.
  simpl. rewrite lookup_drop. f_equal. lia.
Qed.

(** A run of [main] that returns has passed the loader and the three
    checks on the primer table. *)
Lemma main_returned primers compare out :
  main primers compare = Returned out ->
  exists comp header data id_idx,
    load_compare compare = Returned comp
    /\ primers = header :: data
    /\ index "id" header = Some id_idx
    /\ "forward_primer" ∈ header
    /\ out = rewrite_table header id_idx comp data.
Proof.
  unfold main. intros H.
  destruct (load_compare compare) as [comp| |]; try discriminate.
  destruct primers as [|header data]; [discriminate|].
  destruct (index "id" header) as [id_idx|] eqn:E; [|discriminate].
  destruct (decide ("forward_primer" ∈ header)); [|discriminate].
  injection H as <-. exists comp, header, data, id_idx. auto.
Qed.

Lemma rewrite_table_row header id_idx comp data i row :
  data !! i = Some row ->
  rewrite_table header id_idx comp data !! S i
  = Some (pass3_row (names header id_idx comp data) header id_idx row).
Proof.
  intros H. unfold rewrite_table. simpl.
  now rewrite list_lookup_fmap, H.
Qed.

End Rewriter.

(** ** The properties of [main] *)

Section Main.
Import PyStr Csv AddMsatName.

(** C1. Grouping invariant: in the table [main] writes, two primer rows
    whose ids yield the same locus key carry the same inserted
    [microsatellite_name]. *)
Theorem grouping_invariant primers compare out header data id_idx i j r1 r2 :
  main primers compare = Returned out ->
  primers = header :: data ->
  index "id" header = Some id_idx ->
  data !! i = Some r1 ->
  data !! j = Some r2 ->
  locus_of header id_idx r1 = locus_of header id_idx r2 ->
  exists name o1 o2,
    out !! S i = Some o1 /\ out !! S j = Some o2
    /\ o1 !! S id_idx = Some name /\ o2 !! S id_idx = Some name.
Proof.
  intros Hmain -> Hidx H1 H2 Hkey.
  apply main_returned in Hmain as (comp & h & d & k & _ & [= <- <-] & Hk & _ & ->).
  rewrite Hidx in Hk. injection Hk as <-.
  apply index_lookup in Hidx as [_ Hlt].
  exists (ms_name (names header id_idx comp data) header id_idx r1).
  eexists. eexists.
  rewrite (rewrite_table_row _ _ _ _ _ _ H1), (rewrite_table_row _ _ _ _ _ _ H2).
  split; [reflexivity|]. split; [reflexivity|].
  unfold pass3_row. rewrite <- (ms_name_key _ _ _ _ r1 r2 Hkey).
  split; apply insert_after_here; rewrite normalize_length; lia.
Qed.

(** C3. NA isolation: a row whose id has no leading integer for the regex
    to match, or whose locus key has no record in the comparison index,
    gets exactly
    ["NA"] inserted; a step of pass 2 on an unmatched locus leaves the
    counters as they are, and the whole walk ends with the same counters
    and gives every matched locus the same name as the walk over the
    matched loci alone. *)
Theorem NA_isolation header id_idx comp data :
  let st := pass1 header id_idx comp data in
  let matched := filter (fun x => base_get (locus_base st) x <> "NA") (loci_in_order st) in
  (forall row,
     re_match (strip (field (normalize header row) id_idx)) = None
     \/ comp !! locus_of header id_idx row = None ->
     pass3_row (names header id_idx comp data) header id_idx row
     = insert_after id_idx "NA" (normalize header row))
  /\ (forall st2 locus,
        base_get (locus_base st) locus = "NA" ->
        base_counts (pass2_step (locus_base st) st2 locus) = base_counts st2)
  /\ base_counts (pass2 (locus_base st) (loci_in_order st))
     = base_counts (pass2 (locus_base st) matched)
  /\ (forall x, base_get (locus_base st) x <> "NA" ->
        names header id_idx comp data !! x
        = locus_final (pass2 (locus_base st) matched) !! x).
Proof.
  intros st matched. split; [|split].
  - intros row H. unfold pass3_row. rewrite ms_name_NA; [reflexivity|].
    destruct H as [H|H]; [left | now right].
    unfold locus_of. now apply extract_empty_iff.
  - intros st2 locus H. now rewrite pass2_step_NA.
  - apply (pass2_without_NA (locus_base st) (loci_in_order st) pass2_init pass2_init);
      reflexivity.
Qed.

Lemma final_name_of_nat_inj b : Inj (=) (=) (fun k : nat => Some (final_name b (Z.of_nat k))).
Proof.
  intros k1 k2 H. injection H as H. apply final_name_inj in H as [_ H]. lia.
Qed.

(** C8, as amended. Two primer rows with distinct locus keys, one of
    which is a non-empty key with a record in the comparison index, get
    different names; only unmatched loci share a name, ["NA"]. *)
Theorem matched_names_unique header id_idx comp data r1 r2 :
  r1 ∈ data -> r2 ∈ data ->
  locus_of header id_idx r1 <> locus_of header id_idx r2 ->
  locus_of header id_idx r1 <> "" ->
  comp !! locus_of header id_idx r1 <> None ->
  ms_name (names header id_idx comp data) header id_idx r1
  <> ms_name (names header id_idx comp data) header id_idx r2.
Proof.
  intros Hr1 Hr2 Hne Hk1 Hc1.
  set (k1 := locus_of header id_idx r1) in *.
  set (k2 := locus_of header id_idx r2) in *.
  destruct (ms_name_matched header id_idx comp data r1 Hr1 Hk1 Hc1) as [i Hi].
  fold k1 in Hi.
  assert (ms_name (names header id_idx comp data) header id_idx r1
          = final_name (base_of comp k1) i) as E1.
  { unfold ms_name. fold k1. now rewrite Hi. }
  rewrite E1.
  destruct (decide (k2 = "")) as [Hk2|Hk2].
  { rewrite ms_name_NA by (left; assumption). apply final_name_not_NA. }
  destruct (comp !! k2) as [rec|] eqn:Hc2.
  2:{ rewrite ms_name_NA by (right; assumption). apply final_name_not_NA. }
  destruct (ms_name_matched header id_idx comp data r2 Hr2 Hk2) as [j Hj].
  { fold k2. now rewrite Hc2. }
  fold k2 in Hj. unfold ms_name at 1. fold k2. rewrite Hj. simpl.
  intros Heq. destruct (final_name_inj _ _ _ _ Heq) as [Hb Hij]. subst j.
  set (b := base_of comp k1) in *.
  assert (b <> "NA") as HbNA by (unfold b; now rewrite base_of_NA).
  pose proof (suffixes_of_base header id_idx comp data b HbNA) as Hs.
  set (L := filter (fun x => base_of comp x = b)
              (loci_in_order (pass1 header id_idx comp data))) in *.
  assert (k1 ∈ L) as H1.
  { apply list_elem_of_filter. split; [reflexivity|]. apply pass1_loci. eauto. }
  assert (k2 ∈ L) as H2.
  { apply list_elem_of_filter. split; [now symmetry|]. apply pass1_loci. eauto. }
  apply list_elem_of_lookup in H1 as [i1 H1]. apply list_elem_of_lookup in H2 as [i2 H2].
  assert (NoDup ((fun x => names header id_idx comp data !! x) <$> L)) as Hnd.
  { rewrite Hs. pose proof (final_name_of_nat_inj b) as Hinj.
    apply (NoDup_fmap_2 _), NoDup_seq. }
  assert (i1 = i2) as ->.
  { apply (NoDup_lookup _ i1 i2 (Some (final_name b i)) Hnd).
    - now rewrite list_lookup_fmap, H1, <- Hi.
    - rewrite list_lookup_fmap, H2. simpl. rewrite Hj. now rewrite <- Hb. }
  rewrite H1 in H2. injection H2 as H2. contradiction.
Qed.

(** C4, as amended. The output header is the input header with
    [microsatellite_name] inserted right after the [id] column;
    every output row is the input row, padded with empty fields up to the
    header's width when it is shorter, with the name inserted at that same
    position: it has one field more than the padded row, and its other
    fields are those of the padded row, unchanged and in order. *)
Theorem column_insertion primers compare out header data id_idx :
  main primers compare = Returned out ->
  primers = header :: data ->
  index "id" header = Some id_idx ->
  header !! id_idx = Some "id"
  /\ out !! 0%nat
     = Some (take (S id_idx) header ++ "microsatellite_name" :: drop (S id_idx) header)%list
  /\ length out = S (length data)
  /\ exists comp,
       load_compare compare = Returned comp
       /\ forall i row, data !! i = Some row ->
            exists orow,
              out !! S i = Some orow
              /\ length orow = S (max (length row) (length header))
              /\ orow !! S id_idx
                 = Some (ms_name (names header id_idx comp data) header id_idx row)
              /\ (forall j, (j <= id_idx)%nat -> orow !! j = normalize header row !! j)
              /\ (forall j, (id_idx < j)%nat -> orow !! S j = normalize header row !! j)
              /\ normalize header row
                 = (row ++ replicate (length header - length row)%nat "")%list.
Proof.
  intros Hmain -> Hidx.
  apply main_returned in Hmain as (comp & h & d & k & Hc & [= <- <-] & Hk & _ & ->).
  rewrite Hidx in Hk. injection Hk as <-.
  apply index_lookup in Hidx as [Hid Hlt].
  split; [assumption|]. split.
  { unfold rewrite_table, new_header, insert_after. simpl.
    now replace (id_idx + 1)%nat with (S id_idx) by lia. }
  split. { unfold rewrite_table. simpl. now rewrite length_fmap. }
  exists comp. split; [assumption|]. intros i row Hrow.
  eexists. rewrite (rewrite_table_row _ _ _ _ _ _ Hrow).
  split; [reflexivity|]. unfold pass3_row.
  assert (id_idx < length (normalize header row))%nat as Hn
    by (rewrite normalize_length; lia).
  split. { now rewrite insert_after_length, normalize_length. }
  split. { now apply insert_after_here. }
  split. { intros j Hj. now apply insert_after_before. }
  split. { intros j Hj. now apply insert_after_beyond. }
  apply normalize_pad.
Qed.

(** C10. The normalization touches short rows only and drops no field: a
    row at least as wide as the header is passed on as it is, a longer row
    is not cut, and a shorter row is extended with empty strings to the
    header's width; the name is then inserted into that row. *)
Theorem normalize_keeps_fields (header row : list string)
    (locus_final : gmap string string) (id_idx : nat) :
  normalize header row
  = (if (length row <? length header)%nat
     then (row ++ replicate (length header - length row)%nat "")%list
     else row)
  /\ take (length row) (normalize header row) = row
  /\ length (normalize header row) = max (length row) (length header)
  /\ pass3_row locus_final header id_idx row
     = insert_after id_idx (ms_name locus_final header id_idx row)
         (if (length row <? length header)%nat
          then (row ++ replicate (length header - length row)%nat "")%list
          else row).
Proof.
  assert (normalize header row
          = (if (length row <? length header)%nat
             then (row ++ replicate (length header - length row)%nat "")%list
             else row)) as E.
  { destruct (Nat.ltb_spec (length row) (length header)) as [H|H].
    - apply normalize_pad.
    - now apply normalize_long. }
  split; [exact E|]. split; [|split].
  - rewrite normalize_pad. apply take_app_length.
  - apply normalize_length.
  - unfold pass3_row. now rewrite E.
Qed.

End Main.

(** ** The row filter *)

Section Filter.
Import PyStr Csv SsrmmdFilter.

Lemma upper_length s : String.length (upper s) = String.length s.
Proof.
  unfold upper. induction s as [|c s IH]; simpl; [reflexivity | now rewrite IH].
Qed.

Lemma upper_truthy s : truthy (upper s) = truthy s.
Proof. now destruct s. Qed.

Lemma char_set_subseteq (X : gset ascii) s :
  bool_decide (char_set s ⊆ X) = all_chars (fun c => bool_decide (c ∈ X)) s.
Proof.
  unfold char_set. induction s as [|c s IH].
  - simpl. apply bool_decide_eq_true. set_solver.
  - cbn [list_ascii_of_string all_chars]. rewrite <- IH.
    rewrite list_to_set_cons.
    destruct (bool_decide (c ∈ X)) eqn:Ec, (bool_decide (list_to_set _ ⊆ X)) eqn:Es;
      simpl.
    + apply bool_decide_eq_true. apply bool_decide_eq_true in Ec, Es. set_solver.
    + apply bool_decide_eq_false. apply bool_decide_eq_false in Es. set_solver.
    + apply bool_decide_eq_false. apply bool_decide_eq_false in Ec. set_solver.
    + apply bool_decide_eq_false. apply bool_decide_eq_false in Ec. set_solver.
Qed.

Lemma is_valid_dna_upper s : is_valid_dna (upper s) = all_chars is_base (upper s).
Proof. unfold is_valid_dna. rewrite upper_idem. apply char_set_subseteq. Qed.

Lemma is_at_only_upper s : is_at_only (upper s) = all_chars is_a_or_t (upper s).
Proof. unfold is_at_only. rewrite upper_idem. apply char_set_subseteq. Qed.

Lemma polymorphism_of_cases row :
  (polymorphism_of row = None /\ get_or_empty row "polymorphism" = "")
  \/ polymorphism_of row = Some (lower (strip (get_or_empty row "polymorphism"))).
Proof.
  unfold polymorphism_of, get_or_empty, get.
  destruct (cells row !! "polymorphism") as [[|s]|]; simpl; auto.
Qed.

(** The body of the loop: a row that meets the trimmed criteria reaches
    [writer.writerow]; any other is not written. *)
Lemma filter_row_criteria allowed a names row :
  filter_row allowed a names row
  = if criteria_trimmed allowed a row
    then match writerow names row with
         | Returned line => Kept line
         | SysExit _ => Raised ValueError
         | Uncaught x => Raised x
         end
    else match polymorphism_of row with
         | None => Raised AttributeError
         | Some _ => Skipped
         end.
Proof.
  unfold filter_row, criteria_trimmed, criteria.
  destruct (polymorphism_of_cases row) as [[-> ->] | ->]; [reflexivity|].
  set (p := lower (strip (get_or_empty row "polymorphism"))).
  set (s1 := strip (get_or_empty row "fasta1_motif")).
  set (s2 := strip (get_or_empty row "fasta2_motif")).
  destruct (String.eqb p "yes"); [|reflexivity]. simpl.
  rewrite !upper_truthy.
  destruct (truthy s1); [|reflexivity]. destruct (truthy s2); [|reflexivity]. simpl.
  destruct (String.eqb (upper s1) (upper s2)); [|reflexivity]. simpl.
  rewrite is_valid_dna_upper.
  destruct (all_chars is_base (upper s1)); [|reflexivity]. simpl.
  rewrite upper_length.
  destruct (bool_decide (Z.of_nat (String.length s1) ∈ allowed)); [|reflexivity]. simpl.
  destruct (to_int_or_none (get row "fasta1_repeat_number")) as [r1|]; [|reflexivity].
  destruct (to_int_or_none (get row "fasta2_repeat_number")) as [r2|]; [|reflexivity].
  rewrite (Z.ltb_antisym (min_repeats a) r1), (Z.ltb_antisym (min_repeats a) r2).
  destruct (min_repeats a <=? r1); [|reflexivity].
  destruct (min_repeats a <=? r2); [|reflexivity]. simpl.
  rewrite is_at_only_upper.
  destruct (keep_at_only a); simpl; [reflexivity|].
  destruct (all_chars is_a_or_t (upper s1)); reflexivity.
Qed.

Lemma foldl_insert_dom {B V} (g : B -> string) (h : B -> V) (l : list B)
    (d : gmap string V) :
  dom (foldl (fun d x => <[g x := h x]> d) d l) = dom d ∪ list_to_set (g <$> l).
Proof.
  revert d. induction l as [|x l IH]; intros d; simpl.
  - set_solver.
  - rewrite IH, dom_insert_L. set_solver.
Qed.

Lemma to_dict_dom names line :
  dom (cells (to_dict names line)) ⊆ list_to_set names.
Proof.
  unfold to_dict. simpl.
  rewrite (foldl_insert_dom (fun k => k) (fun _ => PyNone)).
  rewrite (foldl_insert_dom (fun kv => kv.1) (fun kv => Field kv.2)).
  rewrite dom_empty_L. intros k Hk.
  apply elem_of_list_to_set.
  apply elem_of_union in Hk as [Hk|Hk].
  - apply elem_of_union in Hk as [Hk|Hk]; [set_solver|].
    apply elem_of_list_to_set, list_elem_of_fmap in Hk as ([k1 v1] & -> & Hin).
    now apply elem_of_zip_l in Hin.
  - apply elem_of_list_to_set in Hk. rewrite list_fmap_id in Hk.
    now apply (subseteq_drop (length line) names).
Qed.

Lemma writerow_to_dict names line :
  (length line <= length names)%nat ->
  writerow names (to_dict names line) = Returned (render names (to_dict names line)).
Proof.
  intros H. unfold writerow.
  replace (rest (to_dict names line)) with (@None (list string)).
  - now rewrite decide_True by apply to_dict_dom.
  - unfold to_dict. simpl.
    destruct (Nat.ltb_spec (length names) (length line)); [lia | reflexivity].
Qed.

(** C9, as amended. A row no wider than the header is written to the
    output exactly when all the criteria hold on its polymorphism and
    motif fields trimmed of surrounding white space and on its two
    repeat-count fields. *)
Theorem filter_keeps_iff (allowed : gset Z) (a : args) (names line : list string) :
  (length line <= length names)%nat ->
  is_kept (filter_row allowed a names (to_dict names line)) = true
  <-> criteria_trimmed allowed a (to_dict names line) = true.
Proof.
  intros H. rewrite filter_row_criteria.
  rewrite (writerow_to_dict names line H).
  destruct (criteria_trimmed allowed a (to_dict names line)).
  - split; reflexivity.
  - destruct (polymorphism_of _); simpl; split; discriminate.
Qed.

Lemma run_eq (w : list (list string)) (n k n' k' : nat) :
  n = n' -> k = k' -> Run w (Returned (n, k)) = Run w (Returned (n', k')).
Proof. now intros -> ->. Qed.

(** A run in which no row raises (every line is no wider than the header
    and reaches the polymorphism column) writes exactly the rows that meet
    the criteria, in order, and counts them. *)
Lemma filter_rows_complete allowed a names lines total kept :
  Forall (fun line => (length line <= length names)%nat
                      /\ polymorphism_of (to_dict names line) <> None) lines ->
  let rows := to_dict names <$> lines in
  let selected := filter (fun row => criteria_trimmed allowed a row = true) rows in
  filter_rows allowed a names rows total kept
  = Run (render names <$> selected)
        (Returned ((total + length lines)%nat, (kept + length selected)%nat)).
Proof.
  intros H. revert total kept.
  induction H as [|line lines [Hw Hp] _ IH]; intros total kept; simpl.
  - now rewrite !Nat.add_0_r.
  - rewrite filter_row_criteria, (writerow_to_dict names line Hw).
    destruct (criteria_trimmed allowed a (to_dict names line)) eqn:E.
    + rewrite filter_cons_True by assumption. rewrite IH, fmap_cons.
      cbn [written ended length]. apply run_eq; rewrite Nat.add_succ_r; reflexivity.
    + rewrite filter_cons_False by congruence.
      destruct (polymorphism_of (to_dict names line)); [|contradiction].
      rewrite IH. apply run_eq; [rewrite Nat.add_succ_r|]; reflexivity.
Qed.

End Filter.

(** ** Where the code departs from the stated claims *)

Section Counterexamples.
Import PyStr Csv.

(** C4 as stated fails on a short row: the row [66.1] has one field, the
    row written for it has four, not two. *)
Lemma column_insertion_short_row :
  exists out row orow,
    AddMsatName.main [primer_header; ["66.1"]] sample_compare = Returned out
    /\ [primer_header; ["66.1"]] !! 1%nat = Some row
    /\ out !! 1%nat = Some orow
    /\ orow = ["66.1"; "AC(4-7).1"; ""; ""]
    /\ length orow <> S (length row).
Proof.
  exists [["id"; "microsatellite_name"; "forward_primer"; "reverse_primer"];
          ["66.1"; "AC(4-7).1"; ""; ""]], ["66.1"], ["66.1"; "AC(4-7).1"; ""; ""].
  split; [vm_compute; reflexivity|]. repeat split. simpl. lia.
Qed.


(** C8 as stated fails on two unmatched loci: the loci 67 and 69 are
    distinct and both are named ["NA"]. *)
Lemma unmatched_loci_share_NA :
  let r1 := ["67.1"; "GGA"; "TTC"] in
  let r2 := ["69.1"; "GTA"; "TAC"] in
  let final := AddMsatName.names primer_header 0 sample_comp [r1; r2] in
  AddMsatName.main [primer_header; r1; r2] sample_compare
  = Returned [["id"; "microsatellite_name"; "forward_primer"; "reverse_primer"];
              ["67.1"; "NA"; "GGA"; "TTC"]; ["69.1"; "NA"; "GTA"; "TAC"]]
  /\ AddMsatName.locus_of primer_header 0 r1 = "67"
  /\ AddMsatName.locus_of primer_header 0 r2 = "69"
  /\ AddMsatName.ms_name final primer_header 0 r1
     = AddMsatName.ms_name final primer_header 0 r2.
Proof. vm_compute. repeat split. Qed.

(** C9 as stated fails on a row whose polymorphism field is [" yes"]: the
    field is not "yes" in any case, and the row is kept. *)
Lemma untrimmed_row_is_kept :
  let row := to_dict filter_header (filter_line "AC" "7" "AC" "5" " yes") in
  SsrmmdFilter.is_kept
    (SsrmmdFilter.filter_row {[2; 3; 4]} SsrmmdFilter.default_args filter_header row)
  = true
  /\ SsrmmdFilter.criteria_as_stated {[2; 3; 4]} SsrmmdFilter.default_args row = false.
Proof. vm_compute. split; reflexivity. Qed.

End Counterexamples.

(** ** The theorems at the sample tables *)

Section Witnesses.
Import PyStr Csv AddMsatName.

Lemma grouping_invariant_witness :
  exists name o1 o2,
    sample_out !! 1%nat = Some o1 /\ sample_out !! 2%nat = Some o2
    /\ o1 !! 1%nat = Some name /\ o2 !! 1%nat = Some name.
Proof.
  apply (grouping_invariant sample_primers sample_compare sample_out
           primer_header sample_data 0 0 1
           ["66.1"; "AAA"; "CCC"] ["66.2"; "AAT"; "CCG"]);
    vm_compute; reflexivity.
Defined.

Lemma NA_isolation_witness :
  pass3_row (names primer_header 0 sample_comp sample_data) primer_header 0
    ["67.1"; "GGA"; "TTC"]
  = insert_after 0 "NA" (normalize primer_header ["67.1"; "GGA"; "TTC"]).
Proof.
  apply (proj1 (NA_isolation primer_header 0 sample_comp sample_data)).
  right. vm_compute. reflexivity.
Defined.

Lemma matched_names_unique_witness :
  ms_name (names primer_header 0 sample_comp sample_data) primer_header 0
    ["66.1"; "AAA"; "CCC"]
  <> ms_name (names primer_header 0 sample_comp sample_data) primer_header 0
       ["68.1"; "GGG"].
Proof.
  apply (matched_names_unique primer_header 0 sample_comp sample_data);
    vm_compute; try discriminate.
  - apply list_elem_of_here.
  - do 3 apply list_elem_of_further. apply list_elem_of_here.
Defined.

Lemma column_insertion_witness :
  primer_header !! 0%nat = Some "id"
  /\ sample_out !! 0%nat
     = Some (take 1 primer_header ++ "microsatellite_name" :: drop 1 primer_header)%list
  /\ length sample_out = S (length sample_data).
Proof.
  destruct (column_insertion sample_primers sample_compare sample_out
              primer_header sample_data 0) as (H1 & H2 & H3 & _);
    [vm_compute; reflexivity ..|].
  auto.
Defined.

Lemma filter_keeps_iff_witness :
  SsrmmdFilter.is_kept
    (SsrmmdFilter.filter_row {[2; 3; 4]} SsrmmdFilter.default_args filter_header
       (to_dict filter_header (filter_line "ac" "7" "AC" "5" "Yes"))) = true
  <-> SsrmmdFilter.criteria_trimmed {[2; 3; 4]} SsrmmdFilter.default_args
        (to_dict filter_header (filter_line "ac" "7" "AC" "5" "Yes")) = true.
Proof.
  apply (filter_keeps_iff {[2; 3; 4]} SsrmmdFilter.default_args filter_header
           (filter_line "ac" "7" "AC" "5" "Yes")).
  vm_compute. lia.
Defined.

End Witnesses.

(** * Further properties of the code *)

(** ** Locus keys *)

Section LocusKeys.
Import PyStr Csv AddMsatName.

Lemma take_digits_digits s : all_chars isdigit (take_digits s) = true.
Proof.
  induction s as [|c s IH]; [reflexivity|]. simpl.
  destruct (isdigit c) eqn:D; [|reflexivity]. simpl. now rewrite D, IH.
Qed.

Lemma take_digits_all s : all_chars isdigit s = true -> take_digits s = s.
Proof.
  induction s as [|c s IH]; [reflexivity|]. simpl. intros H.
  apply andb_true_iff in H as [Hc Hs]. now rewrite Hc, IH.
Qed.

Lemma take_digits_append d rest :
  all_chars isdigit d = true ->
  match rest with String c _ => isdigit c = false | EmptyString => True end ->
  take_digits (d ++ rest) = d.
Proof.
  intros Hd Hr. induction d as [|c d IH].
  - rewrite append_nil_l. destruct rest as [|c r]; [reflexivity|].
    simpl. now rewrite Hr.
  - rewrite append_cons. simpl in *. apply andb_true_iff in Hd as [Hc Hd].
    now rewrite Hc, IH.
Qed.

Lemma lstrip_spaces_append w s : all_chars isspace w = true -> lstrip (w ++ s) = lstrip s.
Proof.
  induction w as [|c w IH]; [reflexivity|]. rewrite append_cons. simpl.
  intros H. apply andb_true_iff in H as [Hc Hw]. rewrite Hc. now apply IH.
Qed.

Lemma lstrip_digits d : all_chars isdigit d = true -> lstrip d = d.
Proof.
  destruct d as [|c d]; [reflexivity|]. simpl. intros H.
  apply andb_true_iff in H as [Hc _]. now rewrite (isdigit_not_space c Hc).
Qed.

(** The locus key is a string of decimal digits, and it is empty exactly
    when the id, after its leading white space, does not start with a
    digit. *)
Theorem extract_locus_num_digits (raw_id : string) :
  all_chars isdigit (extract_locus_num raw_id) = true
  /\ (extract_locus_num raw_id = ""
      <-> match lstrip raw_id with
          | String c _ => isdigit c = false
          | EmptyString => True
          end).
Proof.
  unfold extract_locus_num, re_match. split.
  - pose proof (take_digits_digits (lstrip raw_id)) as H.
    now destruct (take_digits (lstrip raw_id)).
  - destruct (lstrip raw_id) as [|c r]; [now split|]. simpl.
    destruct (isdigit c); split; congruence.
Qed.

Lemma extract_all_digits raw_id : all_chars isdigit (extract_locus_num raw_id) = true.
Proof.
  unfold extract_locus_num, re_match.
  pose proof (take_digits_digits (lstrip raw_id)) as H.
  now destruct (take_digits (lstrip raw_id)).
Qed.

(** Extracting the key of a key gives the key back. *)
Theorem extract_locus_num_idem (raw_id : string) :
  extract_locus_num (extract_locus_num raw_id) = extract_locus_num raw_id.
Proof.
  pose proof (extract_all_digits raw_id) as Hd.
  set (k := extract_locus_num raw_id) in *.
  unfold extract_locus_num at 1, re_match.
  rewrite (lstrip_digits k Hd), (take_digits_all k Hd). now destruct k.
Qed.

(** An id made of optional white space, a non-empty run of digits and a
    rest that does not start with a digit has the run of digits as its
    key: the ids [66.1], [66.2] and [66.1.3] all belong to locus [66]. *)
Theorem extract_locus_num_prefix (w d rest : string) :
  all_chars isspace w = true ->
  d <> "" ->
  all_chars isdigit d = true ->
  match rest with String c _ => isdigit c = false | EmptyString => True end ->
  extract_locus_num (w ++ d ++ rest) = d.
Proof.
  intros Hw Hne Hd Hr. unfold extract_locus_num, re_match.
  rewrite (lstrip_spaces_append w _ Hw).
  destruct d as [|c d]; [contradiction|].
  assert (isspace c = false) as Hc.
  { simpl in Hd. apply andb_true_iff in Hd as [Hc _]. now apply isdigit_not_space. }
  rewrite append_cons, (lstrip_nonspace c _ Hc), <- append_cons.
  now rewrite (take_digits_append _ _ Hd Hr).
Qed.

Lemma extract_locus_num_prefix_witness :
  extract_locus_num (" " ++ "66" ++ ".1.3") = "66".
Proof.
  apply (extract_locus_num_prefix " " "66" ".1.3"); try reflexivity. discriminate.
Defined.

End LocusKeys.

(** ** The index the loader builds *)

Section LoaderIndex.
Import PyStr Csv AddMsatName.

Lemma rstrip_idem s : rstrip (rstrip s) = rstrip s.
Proof.
  induction s as [|c s IH]; [reflexivity|].
  cbn [rstrip]. destruct (rstrip s) as [|a r] eqn:E.
  - destruct (isspace c) eqn:Hc; [reflexivity|]. cbn [rstrip]. now rewrite Hc.
  - cbn [rstrip]. cbn [rstrip] in IH. now rewrite IH.
Qed.

Lemma lstrip_rstrip_lstrip s : lstrip (rstrip (lstrip s)) = rstrip (lstrip s).
Proof.
  destruct (lstrip_head s) as [E | (c & r & E & Hc)]; rewrite E; [reflexivity|].
  destruct (rstrip_cons_nonspace c r Hc) as [r' ->]. now apply lstrip_nonspace.
Qed.

Lemma strip_idem s : strip (strip s) = strip s.
Proof. unfold strip. now rewrite lstrip_rstrip_lstrip, rstrip_idem. Qed.

Lemma load_row_record comp row :
  load_row comp row
  = match record_of row with
    | Some (k, r) => <[k := r]> comp
    | None => comp
    end.
Proof.
  unfold load_row, record_of. destruct (negb _); [reflexivity|].
  destruct (int_of_cell (get row "fasta1_repeat_number")); [|reflexivity].
  destruct (int_of_cell (get row "fasta2_repeat_number")); reflexivity.
Qed.

Lemma record_of_key row k r :
  record_of row = Some (k, r) -> k <> "" /\ strip k = k.
Proof.
  unfold record_of. destruct (truthy _) eqn:T; simpl; [|discriminate].
  destruct (int_of_cell _); [|discriminate].
  destruct (int_of_cell _); [|discriminate].
  intros [= <- _]. split; [now apply truthy_true | apply strip_idem].
Qed.

Lemma load_rows_keys rows comp :
  map_Forall (fun k _ => k <> "" /\ strip k = k) comp ->
  map_Forall (fun k _ => k <> "" /\ strip k = k) (foldl load_row comp rows).
Proof.
  revert comp. induction rows as [|row rows IH]; intros comp H; simpl; auto.
  apply IH. rewrite load_row_record.
  destruct (record_of row) as [[k r]|] eqn:E; [|assumption].
  apply map_Forall_insert_2; [|assumption]. now apply record_of_key in E.
Qed.

(** Every key of the loaded index is non-empty and carries no white
    space at either end: it is the [number] field, trimmed. *)
Theorem loaded_keys_trimmed rows comp k r :
  load_compare rows = Returned comp ->
  comp !! k = Some r ->
  k <> "" /\ strip k = k.
Proof.
  unfold load_compare. intros H Hk.
  destruct (fieldnames rows); [|discriminate].
  destruct (missing_columns _); [|discriminate].
  destruct (decide (_ = ∅)); [discriminate|]. injection H as <-.
  assert (map_Forall (fun k _ => k <> "" /\ strip k = k)
            (load_rows (DictReader rows))) as Hall.
  { apply load_rows_keys. apply map_Forall_empty. }
  exact (Hall k _ Hk).
Qed.

Lemma loaded_keys_trimmed_witness : "66" <> "" /\ strip "66" = "66".
Proof.
  apply (loaded_keys_trimmed sample_compare sample_comp "66" ("AC", 4, 7));
    vm_compute; reflexivity.
Defined.

Lemma records_for_snoc k rows row :
  records_for k (rows ++ [row])
  = (records_for k rows
     ++ match record_of row with
        | Some (k', r) => if decide (k' = k) then [r] else []
        | None => []
        end)%list.
Proof.
  unfold records_for. rewrite omap_app. f_equal. cbn.
  destruct (record_of row) as [[k' r]|]; [|reflexivity].
  now destruct (decide (k' = k)).
Qed.

Lemma load_rows_lookup rows comp k :
  foldl load_row comp rows !! k
  = match last (records_for k rows) with
    | Some r => Some r
    | None => comp !! k
    end.
Proof.
  induction rows as [|row rows IH] using rev_ind; [reflexivity|].
  rewrite foldl_snoc, load_row_record, records_for_snoc.
  destruct (record_of row) as [[k' r]|]; [|now rewrite app_nil_r].
  destruct (decide (k' = k)) as [->|Hne].
  - now rewrite last_snoc, lookup_insert_eq.
  - now rewrite app_nil_r, lookup_insert_ne.
Qed.

(** Last write wins: the record the index holds for a key is the one of
    the last line of the file that is stored under that key, and a key no
    line is stored under is absent. *)
Theorem loaded_record_is_last rows comp k :
  load_compare rows = Returned comp ->
  comp !! k = last (records_for k (DictReader rows)).
Proof.
  unfold load_compare. intros H.
  destruct (fieldnames rows); [|discriminate].
  destruct (missing_columns _); [|discriminate].
  destruct (decide (_ = ∅)); [discriminate|]. injection H as <-.
  unfold load_rows. rewrite load_rows_lookup, lookup_empty.
  now destruct (last _).
Qed.

Lemma loaded_record_is_last_witness :
  sample_comp !! "68" = last (records_for "68" (DictReader sample_compare)).
Proof.
  apply (loaded_record_is_last sample_compare sample_comp "68").
  vm_compute. reflexivity.
Defined.

Lemma load_rows_empty rows :
  load_rows rows = ∅ <-> Forall (fun row => record_of row = None) rows.
Proof.
  split.
  - intros H. apply Forall_forall. intros row Hin.
    destruct (record_of row) as [[k r]|] eqn:E; [|reflexivity]. exfalso.
    assert (load_rows rows !! k = None) as Hk by (rewrite H; apply lookup_empty).
    unfold load_rows in Hk. rewrite load_rows_lookup, lookup_empty in Hk.
    assert (r ∈ records_for k rows) as Hr.
    { unfold records_for. apply list_elem_of_omap. exists row. split; [assumption|].
      rewrite E. now rewrite decide_True. }
    destruct (records_for k rows) as [|r0 l] eqn:El using rev_ind.
    + now apply elem_of_nil in Hr.
    + rewrite last_snoc in Hk. discriminate.
  - intros H. apply map_eq. intros k. unfold load_rows.
    rewrite load_rows_lookup, !lookup_empty.
    assert (records_for k rows = []) as ->; [|reflexivity].
    unfold records_for. induction H as [|row rows Hr _ IH]; [reflexivity|].
    simpl. now rewrite Hr.
Qed.

(** The loader returns an index exactly when the header has the five
    needed columns and at least one line of the file can be stored. *)
Theorem load_compare_returns_iff (rows : list (list string)) :
  (exists comp, load_compare rows = Returned comp)
  <-> (exists names, fieldnames rows = Some names
                     /\ forall c, c ∈ needed -> c ∈ names)
      /\ Exists (fun row => record_of row <> None) (DictReader rows).
Proof.
  unfold load_compare. destruct (fieldnames rows) as [names|].
  2:{ split; [intros [? [=]] | intros [(? & [=] & _) _]]. }
  destruct (missing_columns names) as [|c miss] eqn:E.
  - pose proof (proj1 (missing_columns_nil names) E) as Hall.
    destruct (decide (load_rows (DictReader rows) = ∅)) as [He|He].
    + split; [intros [? [=]]|]. intros [_ Hex].
      apply load_rows_empty in He. apply Exists_exists in Hex as (row & Hin & Hr).
      rewrite Forall_forall in He. now rewrite (He row Hin) in Hr.
    + split; [|eauto]. intros _. split; [eauto|].
      apply not_Forall_Exists; [intros row; apply _|].
      intros Hf. apply He. now apply load_rows_empty.
  - split; [intros [? [=]]|]. intros [(names' & [= <-] & Hall) _].
    apply missing_columns_nil in Hall. congruence.
Qed.

End LoaderIndex.

(** ** Runs of [main] and the name mapping *)

Section NameMap.
Import PyStr Csv AddMsatName.

Lemma index_None x (l : list string) : index x l = None <-> x ∉ l.
Proof.
  unfold index. destruct (list_find _ l) as [[i y]|] eqn:E; simpl.
  - split; [discriminate|]. intros H. exfalso. apply H.
    apply list_find_Some in E as (Hl & -> & _). now apply list_elem_of_lookup_2 in Hl.
  - split; [|reflexivity]. intros _ Hin.
    apply list_find_None in E. rewrite Forall_forall in E. now apply (E x).
Qed.

(** [main] writes a table exactly when the loader returns an index, the
    primer file has a header line, and the header has an [id] and a
    [forward_primer] column. *)
Theorem main_returns_iff (primers compare : list (list string)) :
  (exists out, main primers compare = Returned out)
  <-> (exists comp, load_compare compare = Returned comp)
      /\ exists header data,
           primers = header :: data
           /\ "id" ∈ header /\ "forward_primer" ∈ header.
Proof.
  unfold main. destruct (load_compare compare) as [comp|e|x].
  2,3: split; [intros [? [=]] | intros [[? [=]] _]].
  destruct primers as [|header data].
  { split; [intros [? [=]] | intros [_ (? & ? & [=] & _)]]. }
  destruct (index "id" header) as [i|] eqn:E.
  - apply index_lookup in E as [Hid _]. apply list_elem_of_lookup_2 in Hid.
    destruct (decide ("forward_primer" ∈ header)) as [Hf|Hf].
    + split; [|eauto]. intros _. split; [eauto|]. exists header, data. auto.
    + split; [intros [? [=]]|]. intros [_ (h & d & [= <- <-] & _ & Hf')]. contradiction.
  - apply index_None in E.
    split; [intros [? [=]]|]. intros [_ (h & d & [= <- <-] & Hid & _)]. contradiction.
Qed.

Lemma delete_insert_after i x (row : list string) :
  (i < length row)%nat -> delete (S i) (insert_after i x row) = row.
Proof.
  intros H. unfold insert_after.
  replace (S i) with (length (take (i + 1) row)) at 1
    by (rewrite length_take; lia).
  simpl. rewrite delete_middle. apply take_drop.
Qed.

(** Round trip: taking the inserted column out of the written table
    gives back the header and the primer rows, each padded to the
    header's width when shorter, in their order. *)
Theorem inserted_column_removable primers compare out header data id_idx :
  main primers compare = Returned out ->
  primers = header :: data ->
  index "id" header = Some id_idx ->
  delete (S id_idx) <$> out = header :: (normalize header <$> data).
Proof.
  intros Hmain -> Hidx.
  apply main_returned in Hmain as (comp & h & d & k & _ & [= <- <-] & Hk & _ & ->).
  rewrite Hidx in Hk. injection Hk as <-.
  apply index_lookup in Hidx as [_ Hlt].
  unfold rewrite_table, new_header. rewrite fmap_cons.
  rewrite delete_insert_after by assumption. f_equal.
  rewrite <- list_fmap_compose. apply list_fmap_ext. intros _ row _. simpl.
  unfold pass3_row. apply delete_insert_after. rewrite normalize_length. lia.
Qed.

Lemma inserted_column_removable_witness :
  delete 1%nat <$> sample_out = primer_header :: (normalize primer_header <$> sample_data).
Proof.
  apply (inserted_column_removable sample_primers sample_compare sample_out
           primer_header sample_data 0); vm_compute; reflexivity.
Defined.

(** Exactly the non-empty locus keys of the primer rows get a name. *)
Theorem names_dom header id_idx comp data x :
  is_Some (names header id_idx comp data !! x)
  <-> x <> "" /\ exists row, row ∈ data /\ locus_of header id_idx row = x.
Proof.
  rewrite <- pass1_loci. split; [apply final_is_Some|]. intros H.
  destruct (comp !! x) eqn:E.
  - destruct (final_matched header id_idx comp data x H) as [i Hi]; [congruence|].
    rewrite Hi. eauto.
  - rewrite (final_unmatched header id_idx comp data x H E). eauto.
Qed.

(** The name of a matched locus has the documented format
    [<motif>(<R1>-<R2>).<n>], with the motif and the bounds of the record
    of its key, and with [n] between 1 and the number of discovered loci
    that share this Base Name. *)
Theorem matched_name_format header id_idx comp data row motif rmin rmax :
  row ∈ data ->
  locus_of header id_idx row <> "" ->
  comp !! locus_of header id_idx row = Some (motif, rmin, rmax) ->
  exists n : nat,
    ms_name (names header id_idx comp data) header id_idx row
    = motif ++ "(" ++ str rmin ++ "-" ++ str rmax ++ ")" ++ "." ++ str (Z.of_nat n)
    /\ (1 <= n)%nat
    /\ (n <= length (filter (fun x => base_of comp x = base_name motif rmin rmax)
                       (loci_in_order (pass1 header id_idx comp data))))%nat.
Proof.
  intros Hr Hk Hc. set (k := locus_of header id_idx row) in *.
  set (b := base_name motif rmin rmax).
  assert (base_of comp k = b) as Hb by (unfold base_of; now rewrite Hc).
  assert (b <> "NA") as HbNA by apply base_name_not_NA.
  pose proof (suffixes_of_base header id_idx comp data b HbNA) as Hs.
  set (L := filter (fun x => base_of comp x = b)
              (loci_in_order (pass1 header id_idx comp data))) in *.
  assert (k ∈ L) as Hin.
  { apply list_elem_of_filter. split; [assumption|]. apply pass1_loci. eauto. }
  apply list_elem_of_lookup in Hin as [i Hi].
  assert (i < length L)%nat as Hlt by (now apply lookup_lt_Some in Hi).
  assert (((fun x => names header id_idx comp data !! x) <$> L) !! i
          = Some (names header id_idx comp data !! k)) as H1
    by (now rewrite list_lookup_fmap, Hi).
  rewrite Hs, list_lookup_fmap, lookup_seq_lt in H1 by assumption.
  simpl in H1. injection H1 as H1.
  exists (S i). split; [|lia].
  unfold ms_name. fold k. rewrite <- H1. simpl.
  unfold final_name, b, base_name. now rewrite !append_assoc.
Qed.

Lemma matched_name_format_witness :
  exists n : nat,
    ms_name (names primer_header 0 sample_comp sample_data) primer_header 0 ["68.1"; "GGG"]
    = "AC" ++ "(" ++ str 4 ++ "-" ++ str 7 ++ ")" ++ "." ++ str (Z.of_nat n)
    /\ (1 <= n)%nat
    /\ (n <= length (filter (fun x => base_of sample_comp x = base_name "AC" 4 7)
                       (loci_in_order (pass1 primer_header 0 sample_comp sample_data))))%nat.
Proof.
  apply (matched_name_format primer_header 0 sample_comp sample_data ["68.1"; "GGG"]).
  - do 3 apply list_elem_of_further. apply list_elem_of_here.
  - vm_compute. discriminate.
  - vm_compute. reflexivity.
Defined.

End NameMap.

(** ** What the names depend on *)

Section NameStability.
Import PyStr Csv AddMsatName.

Lemma pass2_step_ext lb lb' st x :
  base_get lb x = base_get lb' x -> pass2_step lb st x = pass2_step lb' st x.
Proof. unfold pass2_step. now intros ->. Qed.

Lemma pass2_ext lb lb' st (l : list string) :
  (forall x, x ∈ l -> base_get lb x = base_get lb' x) ->
  foldl (pass2_step lb) st l = foldl (pass2_step lb') st l.
Proof.
  revert st. induction l as [|x l IH]; intros st H; [reflexivity|]. simpl.
  rewrite (pass2_step_ext lb lb') by (apply H; now left).
  apply IH. intros y Hy. apply H. now right.
Qed.

(** The name mapping is a function of the comparison index and of the
    first-seen sequence of locus keys alone: two primer tables, whatever
    their other columns, rows per locus and header, that yield the same
    sequence get the same names. *)
Theorem names_depend_on_first_seen h1 i1 h2 i2 comp d1 d2 :
  first_seen ∅ (locus_of h1 i1 <$> d1) = first_seen ∅ (locus_of h2 i2 <$> d2) ->
  names h1 i1 comp d1 = names h2 i2 comp d2.
Proof.
  rewrite <- !pass1_first_seen with (comp := comp). intros H.
  unfold names, pass2. rewrite <- H. f_equal. apply pass2_ext.
  intros x Hx. rewrite lbase_of by assumption.
  rewrite H in Hx. now rewrite lbase_of by assumption.
Qed.

Lemma names_depend_on_first_seen_witness :
  names primer_header 0 sample_comp sample_data
  = names ["x"; "id"] 1 sample_comp [["a"; "66"]; ["b"; "67.9"]; ["c"; " 68"]; ["d"; "66"]].
Proof.
  apply (names_depend_on_first_seen primer_header 0 ["x"; "id"] 1 sample_comp).
  vm_compute. reflexivity.
Defined.

(** Names are stable under appending: rows added at the end of the primer
    table never change the name of a locus discovered before them. *)
Theorem names_stable_under_append header id_idx comp data more x :
  x ∈ loci_in_order (pass1 header id_idx comp data) ->
  names header id_idx comp (data ++ more) !! x = names header id_idx comp data !! x.
Proof.
  intros Hx.
  pose proof (pass1_inv_final header id_idx comp (data ++ more)) as Hinv.
  pose proof (inv_nodup _ _ Hinv) as Hnd.
  assert (loci_in_order (pass1 header id_idx comp (data ++ more))
          = (loci_in_order (pass1 header id_idx comp data)
             ++ first_seen (seen_loci (pass1 header id_idx comp data))
                  (locus_of header id_idx <$> more))%list) as El.
  { unfold pass1 at 1. rewrite foldl_app. apply pass1_first_seen_fold. }
  unfold names at 1, pass2. rewrite El in Hnd |- *. rewrite foldl_app.
  apply NoDup_app in Hnd as (_ & Hdisj & _).
  rewrite pass2_final_notin by (now apply Hdisj).
  unfold names, pass2. f_equal. f_equal. apply pass2_ext.
  intros y Hy. rewrite (lbase_of header id_idx comp data y Hy).
  apply lbase_of. rewrite El. apply elem_of_app. now left.
Qed.

Lemma names_stable_under_append_witness :
  names primer_header 0 sample_comp (sample_data ++ [["70.1"]; ["66.9"]]) !! "68"
  = names primer_header 0 sample_comp sample_data !! "68".
Proof.
  apply (names_stable_under_append primer_header 0 sample_comp sample_data).
  vm_compute. do 2 apply list_elem_of_further. apply list_elem_of_here.
Defined.

Lemma pass2_counts lb (l : list string) st b :
  b <> "NA" ->
  count_of (foldl (pass2_step lb) st l) b
  = count_of st b + Z.of_nat (length (filter (fun x => base_get lb x = b) l)).
Proof.
  intros Hb. revert st. induction l as [|x l IH]; intros st; simpl; [lia|].
  rewrite IH. destruct (decide (base_get lb x = b)) as [E|E].
  - rewrite filter_cons_True by assumption. subst b.
    rewrite pass2_count_same by assumption. simpl length. lia.
  - rewrite filter_cons_False by assumption. now rewrite pass2_count_other.
Qed.

Lemma pass2_no_NA_counter lb (l : list string) st :
  base_counts (foldl (pass2_step lb) st l) !! "NA" = base_counts st !! "NA".
Proof.
  revert st. induction l as [|x l IH]; intros st; simpl; [reflexivity|].
  rewrite IH. destruct (decide (base_get lb x = "NA")) as [E|E].
  - now rewrite pass2_step_NA.
  - rewrite pass2_step_named by assumption. simpl. now rewrite lookup_insert_ne.
Qed.

(** After pass 2 the counter of every Base Name is the number of
    discovered loci that carry it, and there is no counter for ["NA"]. *)
Theorem base_counts_final header id_idx comp data :
  let st := pass1 header id_idx comp data in
  let counts := base_counts (pass2 (locus_base st) (loci_in_order st)) in
  counts !! "NA" = None
  /\ forall b, b <> "NA" ->
       default 0 (counts !! b)
       = Z.of_nat (length (filter (fun x => base_of comp x = b) (loci_in_order st))).
Proof.
  intros st counts. split.
  - unfold counts, pass2. now rewrite pass2_no_NA_counter.
  - intros b Hb. unfold counts, pass2.
    change (default 0 (base_counts ?s !! b)) with (count_of s b).
    rewrite pass2_counts by assumption.
    unfold st. rewrite loci_with_base. reflexivity.
Qed.

Lemma base_counts_final_witness :
  default 0 (base_counts (pass2 (locus_base (pass1 primer_header 0 sample_comp sample_data))
                            (loci_in_order (pass1 primer_header 0 sample_comp sample_data)))
             !! "AC(4-7)")
  = Z.of_nat (length (filter (fun x => base_of sample_comp x = "AC(4-7)")
                        (loci_in_order (pass1 primer_header 0 sample_comp sample_data)))).
Proof.
  apply (proj2 (base_counts_final primer_header 0 sample_comp sample_data)).
  discriminate.
Defined.

Lemma pass1_missing_fold header id_idx comp data st x :
  x ∈ missing_loci (foldl (pass1_step header id_idx comp) st data)
  <-> x ∈ missing_loci st
      \/ (x ∈ first_seen (seen_loci st) (locus_of header id_idx <$> data)
          /\ comp !! x = None).
Proof.
  revert st. induction data as [|row data IH]; intros st.
  - simpl. split; [auto|]. intros [H|[H _]]; [assumption | now apply elem_of_nil in H].
  - rewrite fmap_cons. cbn [foldl first_seen]. rewrite IH.
    set (k := locus_of header id_idx row).
    destruct (decide (k = "")) as [E|E].
    { rewrite pass1_step_old by auto. fold k. now rewrite E. }
    destruct (decide (k ∈ seen_loci st)) as [S|S].
    { rewrite pass1_step_old by auto. fold k.
      apply truthy_true in E. rewrite E. simpl negb. cbv iota.
      reflexivity. }
    destruct (pass1_step_new header id_idx comp st row E S) as (_ & Hs & _).
    fold k in Hs. rewrite Hs.
    assert (missing_loci (pass1_step header id_idx comp st row)
            = if comp !! k is Some _ then missing_loci st else {[k]} ∪ missing_loci st)
      as Hm.
    { unfold pass1_step. fold k. apply truthy_true in E. rewrite E. simpl negb.
      cbv iota. rewrite decide_False by assumption.
      now destruct (comp !! k) as [[[? ?] ?]|]. }
    rewrite Hm. apply truthy_true in E. rewrite E. simpl negb. cbv iota.
    rewrite elem_of_cons.
    destruct (comp !! k) eqn:Ec.
    + split; [intros [H|H]; auto; right; tauto|].
      intros [H|[[->|H] Hn]]; auto; congruence.
    + rewrite elem_of_union, elem_of_singleton.
      split; [intros [[->|H]|H]; auto; right; tauto|].
      intros [H|[[->|H] Hn]]; auto.
Qed.

Lemma missing_loci_final header id_idx comp data :
  missing_loci (pass1 header id_idx comp data)
  = list_to_set (filter (fun x => comp !! x = None)
                   (loci_in_order (pass1 header id_idx comp data))).
Proof.
  apply set_eq. intros x.
  rewrite elem_of_list_to_set, list_elem_of_filter, pass1_first_seen.
  unfold pass1. rewrite pass1_missing_fold. simpl.
  rewrite elem_of_empty. tauto.
Qed.

(** The summary warns exactly when some discovered locus has no record
    in the comparison index, and the count it prints is the number of
    such loci. *)
Theorem warning_counts_unmatched header id_idx comp data :
  warning header id_idx comp data
  = match length (filter (fun x => comp !! x = None)
                    (loci_in_order (pass1 header id_idx comp data))) with
    | O => None
    | n => Some n
    end.
Proof.
  unfold warning. rewrite missing_loci_final.
  set (l := filter _ _).
  assert (NoDup l) as Hnd
    by (apply NoDup_filter, (inv_nodup _ _ (pass1_inv_final header id_idx comp data))).
  rewrite (size_list_to_set l Hnd).
  destruct l as [|x l]; simpl.
  - now rewrite decide_True.
  - rewrite decide_False; [reflexivity|]. intros H.
    assert (x ∈ (∅ : gset string)) as Hx by (rewrite <- H; set_solver).
    now apply elem_of_empty in Hx.
Qed.

End NameStability.

(** ** Rows as dictionaries *)

Section Dictionaries.
Import PyStr Csv.

Lemma to_dict_cells names line : cells (to_dict names line) = fill ∅ names line.
Proof. reflexivity. Qed.

Lemma fill_nil d line : fill d [] line = d.
Proof. unfold fill. now rewrite drop_nil. Qed.

Lemma fill_cons d n ns x xs : fill d (n :: ns) (x :: xs) = fill (<[n := Field x]> d) ns xs.
Proof. reflexivity. Qed.

Lemma fill_short d names :
  fill d names [] = foldl (fun d k => <[k := PyNone]> d) d names.
Proof. unfold fill. now destruct names. Qed.

Lemma foldl_none_notin (l : list string) (d : gmap string cell) k :
  k ∉ l -> foldl (fun d k => <[k := PyNone]> d) d l !! k = d !! k.
Proof.
  revert d. induction l as [|x l IH]; intros d H; [reflexivity|]. simpl.
  apply not_elem_of_cons in H as [H1 H2].
  rewrite IH by assumption. now apply lookup_insert_ne.
Qed.

Lemma foldl_none_in (l : list string) (d : gmap string cell) k :
  k ∈ l -> foldl (fun d k => <[k := PyNone]> d) d l !! k = Some PyNone.
Proof.
  revert d. induction l as [|x l IH]; intros d H; [now apply elem_of_nil in H|].
  simpl. destruct (decide (k ∈ l)) as [Hl|Hl]; [now apply IH|].
  apply elem_of_cons in H as [->|H]; [|contradiction].
  rewrite foldl_none_notin by assumption. apply lookup_insert_eq.
Qed.

Lemma fill_notin names line (d : gmap string cell) k : k ∉ names -> fill d names line !! k = d !! k.
Proof.
  revert line d. induction names as [|n ns IH]; intros line d H.
  - now rewrite fill_nil.
  - apply not_elem_of_cons in H as [H1 H2]. destruct line as [|x xs].
    + rewrite fill_short. apply foldl_none_notin. now apply not_elem_of_cons.
    + rewrite fill_cons, IH by assumption. now apply lookup_insert_ne.
Qed.

(** Under a header without repeated names, the cell under the name at
    position [i] is the field at position [i] of the line. *)
Lemma fill_lookup names line (d : gmap string cell) i k :
  NoDup names -> names !! i = Some k ->
  fill d names line !! k = Some (cell_at line i).
Proof.
  revert line d i. induction names as [|n ns IH]; intros line d i Hnd Hi;
    [discriminate|].
  apply NoDup_cons in Hnd as [Hn Hnd]. destruct line as [|x xs].
  - rewrite fill_short. unfold cell_at. rewrite lookup_nil.
    apply foldl_none_in. now apply list_elem_of_lookup_2 in Hi.
  - rewrite fill_cons. destruct i as [|j]; simpl in Hi.
    + injection Hi as <-. rewrite fill_notin by assumption. apply lookup_insert_eq.
    + change (cell_at (x :: xs) (S j)) with (cell_at xs j). now apply IH.
Qed.

(** A line made of one text per header name is read back as that text
    under each name, repeated names or not. *)
Lemma fill_lookup_fmap (f : string -> string) names (d : gmap string cell) k :
  k ∈ names -> fill d names (f <$> names) !! k = Some (Field (f k)).
Proof.
  revert d. induction names as [|n ns IH]; intros d H; [now apply elem_of_nil in H|].
  rewrite fmap_cons, fill_cons.
  destruct (decide (k ∈ ns)) as [Hl|Hl]; [now apply IH|].
  apply elem_of_cons in H as [->|H]; [|contradiction].
  rewrite fill_notin by assumption. apply lookup_insert_eq.
Qed.

Lemma get_to_dict names line i k :
  NoDup names -> names !! i = Some k -> get (to_dict names line) k = cell_at line i.
Proof.
  intros Hnd Hi. unfold get. rewrite to_dict_cells.
  now rewrite (fill_lookup names line ∅ i k Hnd Hi).
Qed.

(** Round trip of [DictReader] and [DictWriter]: under a header without
    repeated names, a line no wider than the header is written back as
    it was read, followed by one empty field for each column it did not
    reach. *)
Theorem render_to_dict (names line : list string) :
  NoDup names ->
  (length line <= length names)%nat ->
  render names (to_dict names line)
  = (line ++ replicate (length names - length line)%nat "")%list.
Proof.
  intros Hnd Hlen. apply list_eq. intros i. unfold render.
  rewrite list_lookup_fmap.
  destruct (names !! i) as [k|] eqn:Hi; simpl.
  - rewrite (get_to_dict names line i k Hnd Hi). unfold cell_at.
    apply lookup_lt_Some in Hi as Hlt.
    destruct (line !! i) as [x|] eqn:Hx.
    + symmetry. now apply lookup_app_l_Some.
    + apply lookup_ge_None in Hx. symmetry.
      rewrite lookup_app_r by assumption. apply lookup_replicate_2. lia.
  - apply lookup_ge_None in Hi. symmetry. apply lookup_ge_None.
    rewrite length_app, length_replicate. lia.
Qed.

Lemma render_to_dict_witness :
  render ["a"; "b"; "c"] (to_dict ["a"; "b"; "c"] ["1"; "2"])
  = (["1"; "2"] ++ replicate (3 - 2)%nat "")%list.
Proof.
  apply (render_to_dict ["a"; "b"; "c"] ["1"; "2"]).
  - repeat constructor; set_solver.
  - simpl. lia.
Defined.

End Dictionaries.

(** ** Runs of the filter *)

Section FilterRuns.
Import PyStr Csv SsrmmdFilter.

Lemma upper_lower_char c : upper_char (lower_char c) = upper_char c.
Proof.
  unfold lower_char. destruct (isupper c) eqn:U; [|reflexivity].
  apply between_spec in U. pose proof (code_lt c) as Hc.
  assert (islower c = false) as Hl.
  { apply not_true_is_false. intros H. apply between_spec in H. lia. }
  unfold upper_char at 2. rewrite Hl. unfold upper_char.
  assert (islower (ascii_of_N (code c + 32)) = true) as ->.
  { apply between_spec. rewrite code_ascii_of_N by lia. lia. }
  rewrite code_ascii_of_N by lia.
  replace (code c + 32 - 32)%N with (code c) by lia.
  apply ascii_N_embedding.
Qed.

Lemma upper_lower s : upper (lower s) = upper s.
Proof.
  unfold upper, lower. induction s as [|c s IH]; simpl; [reflexivity|].
  now rewrite upper_lower_char, IH.
Qed.

(** An AT-only motif is valid DNA, and neither test depends on the case
    of the letters. *)
Theorem dna_tests (motif : string) :
  (is_at_only motif = true -> is_valid_dna motif = true)
  /\ is_valid_dna (lower motif) = is_valid_dna motif
  /\ is_valid_dna (upper motif) = is_valid_dna motif
  /\ is_at_only (lower motif) = is_at_only motif
  /\ is_at_only (upper motif) = is_at_only motif.
Proof.
  unfold is_at_only, is_valid_dna. rewrite upper_lower, upper_idem.
  split; [|auto]. intros H. apply bool_decide_eq_true in H.
  apply bool_decide_eq_true. set_solver.
Qed.

Lemma dna_tests_witness : is_valid_dna "taAT" = true.
Proof. apply (proj1 (dna_tests "taAT")). vm_compute. reflexivity. Defined.

Lemma add_length_stops (l : list string) :
  (forall e, foldl add_length (SysExit e) l = SysExit e)
  /\ (forall x, foldl add_length (Uncaught x) l = Uncaught x).
Proof. induction l as [|tok l [IH1 IH2]]; split; intros; simpl; auto. Qed.

Lemma fold_lengths (l : list string) (A0 : gset Z) :
  match foldl add_length (Returned A0) l with
  | Returned A =>
      Forall (fun tok => strip tok = "" \/ int (strip tok) <> None) l
      /\ forall n, n ∈ A <-> n ∈ A0 \/ exists tok, tok ∈ l /\ int (strip tok) = Some n
  | SysExit e =>
      exists tok, tok ∈ l /\ strip tok <> "" /\ int (strip tok) = None
                  /\ e = FilterBadLength (strip tok)
  | Uncaught _ => False
  end.
Proof.
  revert A0. induction l as [|tok l IH]; intros A0.
  - simpl. split; [constructor|]. intros n. split; [auto|].
    intros [H|(tok & H & _)]; [assumption | now apply elem_of_nil in H].
  - cbn [foldl]. unfold add_length at 2.
    destruct (truthy (strip tok)) eqn:T; simpl negb; cbv iota.
    + destruct (int (strip tok)) as [m|] eqn:E.
      * specialize (IH ({[m]} ∪ A0)).
        destruct (foldl add_length (Returned ({[m]} ∪ A0)) l) as [A|e|x]; [| |assumption].
        -- destruct IH as [Hf Hm]. split.
           ++ constructor; [right; congruence | assumption].
           ++ intros n. rewrite Hm, elem_of_union, elem_of_singleton. split.
              ** intros [[->|H]|(t & Ht & Hn)]; eauto using list_elem_of_here, list_elem_of_further.
              ** intros [H|(t & Ht & Hn)]; [auto|].
                 apply elem_of_cons in Ht as [->|Ht]; [left; left; congruence|eauto].
        -- destruct IH as (t & Ht & H). exists t. split; [now right | assumption].
      * rewrite (proj1 (add_length_stops l)). exists tok.
        split; [now left|]. split; [now apply truthy_true|]. auto.
    + apply truthy_false in T. specialize (IH A0).
      destruct (foldl add_length (Returned A0) l) as [A|e|x]; [| |assumption].
      * destruct IH as [Hf Hm]. split; [constructor; auto|].
        intros n. rewrite Hm. split.
        -- intros [H|(t & Ht & Hn)]; eauto using list_elem_of_further.
        -- intros [H|(t & Ht & Hn)]; [auto|].
           apply elem_of_cons in Ht as [->|Ht]; [|eauto].
           rewrite T in Hn. discriminate.
      * destruct IH as (t & Ht & H). exists t. split; [now right | assumption].
Qed.

(** The allowed lengths are the integers among the comma-separated
    tokens of the option, trimmed; empty tokens are passed over, and the
    run exits on a token that is not empty and not an integer. *)
Theorem parse_allowed_lengths_spec (s : string) :
  match parse_allowed_lengths s with
  | Returned allowed =>
      Forall (fun tok => strip tok = "" \/ int (strip tok) <> None) (split "," s)
      /\ forall n, n ∈ allowed
                   <-> exists tok, tok ∈ split "," s /\ int (strip tok) = Some n
  | SysExit e =>
      exists tok, tok ∈ split "," s /\ strip tok <> "" /\ int (strip tok) = None
                  /\ e = FilterBadLength (strip tok)
  | Uncaught _ => False
  end.
Proof.
  unfold parse_allowed_lengths.
  pose proof (fold_lengths (split "," s) ∅) as H.
  destruct (foldl add_length (Returned ∅) (split "," s)) as [A|e|x]; [|assumption..].
  destruct H as [Hf Hm]. split; [assumption|]. intros n. rewrite Hm.
  rewrite elem_of_empty. tauto.
Qed.

End FilterRuns.

(** ** What the filter writes *)

Section FilterOutput.
Import PyStr Csv SsrmmdFilter.

Lemma writerow_returned names row line :
  writerow names row = Returned line -> line = render names row.
Proof.
  unfold writerow. destruct (rest row); [discriminate|].
  destruct (decide _); [|discriminate]. now intros [= <-].
Qed.

Lemma filter_row_kept allowed a names row line :
  filter_row allowed a names row = Kept line ->
  criteria_trimmed allowed a row = true /\ line = render names row.
Proof.
  rewrite filter_row_criteria. destruct (criteria_trimmed allowed a row).
  - destruct (writerow names row) as [l| |] eqn:W; try discriminate.
    intros [= <-]. split; [reflexivity | now apply writerow_returned].
  - destruct (polymorphism_of row); discriminate.
Qed.

Lemma filter_row_skipped allowed a names row :
  filter_row allowed a names row = Skipped -> criteria_trimmed allowed a row = false.
Proof.
  rewrite filter_row_criteria. destruct (criteria_trimmed allowed a row); [|reflexivity].
  destruct (writerow names row); discriminate.
Qed.

Lemma filter_rows_returned allowed a names rows total kept t k :
  ended (filter_rows allowed a names rows total kept) = Returned (t, k) ->
  written (filter_rows allowed a names rows total kept)
  = render names <$> filter (fun row => criteria_trimmed allowed a row = true) rows
  /\ t = (total + length rows)%nat
  /\ k = (kept + length (filter (fun row => criteria_trimmed allowed a row = true) rows))%nat
  /\ Forall (fun row => forall x, filter_row allowed a names row <> Raised x) rows.
Proof.
  revert total kept. induction rows as [|row rows IH]; intros total kept H.
  - simpl in *. injection H as <- <-. repeat split; try lia. constructor.
  - cbn [filter_rows] in *.
    destruct (filter_row allowed a names row) as [line| |x] eqn:F.
    + cbn [ended written] in *.
      destruct (filter_row_kept _ _ _ _ _ F) as [Hc ->].
      destruct (IH _ _ H) as (Hw & -> & -> & Hq).
      rewrite filter_cons_True by assumption. rewrite fmap_cons, Hw.
      repeat split; simpl; try lia.
      constructor; [|assumption]. intros x. congruence.
    + pose proof (filter_row_skipped _ _ _ _ F) as Hc.
      destruct (IH _ _ H) as (Hw & -> & -> & Hq).
      rewrite filter_cons_False by congruence.
      repeat split; simpl; try lia; [assumption|].
      constructor; [|assumption]. intros x. congruence.
    + discriminate.
Qed.

(** A run that ends normally has parsed its options, found a header
    with all the required columns, and gone through every row. *)
Lemma main_passed a input t k :
  ended (main a input) = Returned (t, k) ->
  exists allowed header,
    parse_allowed_lengths (allowed_motif_lengths a) = Returned allowed
    /\ fieldnames input = Some header
    /\ missing header = []
    /\ ended (filter_rows allowed a header (DictReader input) 0 0) = Returned (t, k)
    /\ written (main a input)
       = header :: written (filter_rows allowed a header (DictReader input) 0 0).
Proof.
  unfold main. intros H.
  destruct (parse_allowed_lengths _) as [allowed| |]; try discriminate.
  destruct (fieldnames input) as [header|]; [|discriminate].
  destruct (missing header) eqn:Hm; [|discriminate].
  exists allowed, header. auto.
Qed.

(** A run of the filter that ends normally has written the header and
    then exactly the rows that meet the criteria, in file order; the
    summary counts the non-blank data lines and the rows written. *)
Theorem filter_main_returned a input t k :
  ended (main a input) = Returned (t, k) ->
  exists allowed header,
    parse_allowed_lengths (allowed_motif_lengths a) = Returned allowed
    /\ fieldnames input = Some header
    /\ written (main a input)
       = header :: (render header
                      <$> filter (fun row => criteria_trimmed allowed a row = true)
                            (DictReader input))
    /\ t = length (DictReader input)
    /\ k = length (filter (fun row => criteria_trimmed allowed a row = true)
                     (DictReader input)).
Proof.
  intros H. apply main_passed in H as (allowed & header & Hp & Hh & _ & He & Hw).
  destruct (filter_rows_returned _ _ _ _ _ _ _ _ He) as (Hr & -> & -> & _).
  exists allowed, header. rewrite Hw, Hr. auto.
Qed.

Lemma filter_main_returned_witness :
  exists allowed header,
    parse_allowed_lengths (allowed_motif_lengths default_args) = Returned allowed
    /\ fieldnames [filter_header; filter_line "ac" "7" "AC" "5" "Yes"] = Some header
    /\ written (main default_args [filter_header; filter_line "ac" "7" "AC" "5" "Yes"])
       = header :: (render header
                      <$> filter (fun row => criteria_trimmed allowed default_args row = true)
                            (DictReader [filter_header; filter_line "ac" "7" "AC" "5" "Yes"]))
    /\ 1%nat = length (DictReader [filter_header; filter_line "ac" "7" "AC" "5" "Yes"])
    /\ 1%nat = length (filter (fun row => criteria_trimmed allowed default_args row = true)
                         (DictReader [filter_header; filter_line "ac" "7" "AC" "5" "Yes"])).
Proof.
  apply (filter_main_returned default_args
           [filter_header; filter_line "ac" "7" "AC" "5" "Yes"] 1 1).
  vm_compute. reflexivity.
Defined.

Lemma writerow_wide names line :
  (length names < length line)%nat ->
  writerow names (to_dict names line) = Uncaught ValueError.
Proof.
  intros H. unfold writerow, to_dict. cbn [rest].
  destruct (Nat.ltb_spec (length names) (length line)); [reflexivity | lia].
Qed.

(** A row that is kept is written unchanged when the header has no
    repeated name: field for field as it was read, with one empty field
    for each column a short line did not reach. *)
Theorem kept_line_unchanged allowed a names line out :
  NoDup names ->
  filter_row allowed a names (to_dict names line) = Kept out ->
  out = (line ++ replicate (length names - length line)%nat "")%list.
Proof.
  intros Hnd H. rewrite filter_row_criteria in H.
  destruct (criteria_trimmed allowed a (to_dict names line)).
  2:{ destruct (polymorphism_of _); discriminate. }
  destruct (Nat.le_gt_cases (length line) (length names)) as [Hle|Hgt].
  - rewrite (writerow_to_dict names line Hle) in H. injection H as <-.
    now apply render_to_dict.
  - rewrite (writerow_wide names line Hgt) in H. discriminate.
Qed.

Lemma kept_line_unchanged_witness :
  filter_line "ac" "7" "AC" "5" "Yes"
  = (filter_line "ac" "7" "AC" "5" "Yes"
     ++ replicate (length filter_header - length (filter_line "ac" "7" "AC" "5" "Yes"))%nat "")%list.
Proof.
  apply (kept_line_unchanged {[2; 3; 4]} default_args filter_header
           (filter_line "ac" "7" "AC" "5" "Yes")).
  - apply (bool_decide_unpack _). vm_compute. reflexivity.
  - vm_compute. reflexivity.
Defined.

Lemma cells_wide names line k :
  (length names <= length line)%nat -> cells (to_dict names line) !! k <> Some PyNone.
Proof.
  intros H. rewrite to_dict_cells. unfold fill.
  rewrite drop_ge by assumption. simpl.
  assert (forall (l : list (string * string)) (d : gmap string cell),
            d !! k <> Some PyNone ->
            foldl (fun d kv => <[kv.1 := Field kv.2]> d) d l !! k <> Some PyNone) as Hf.
  { induction l as [|[k' v] l IH]; intros d Hd; [assumption|]. simpl. apply IH.
    destruct (decide (k' = k)) as [->|Hne].
    - rewrite lookup_insert_eq. discriminate.
    - now rewrite lookup_insert_ne. }
  apply Hf. now rewrite lookup_empty.
Qed.

(** A line with more fields than the header is passed over in silence
    when it fails the criteria and ends the run with a [ValueError] when
    it meets them: it is never written. *)
Theorem wide_line_verdict allowed a names line :
  (length names < length line)%nat ->
  filter_row allowed a names (to_dict names line)
  = if criteria_trimmed allowed a (to_dict names line)
    then Raised ValueError else Skipped.
Proof.
  intros H. rewrite filter_row_criteria, (writerow_wide names line H).
  destruct (criteria_trimmed _ _ _); [reflexivity|].
  unfold polymorphism_of.
  pose proof (cells_wide names line "polymorphism" ltac:(lia)) as Hc.
  destruct (cells (to_dict names line) !! "polymorphism") as [[|?]|]; congruence.
Qed.

Lemma wide_line_verdict_witness :
  filter_row {[2; 3; 4]} default_args filter_header
    (to_dict filter_header (filter_line "AC" "7" "AC" "5" "yes" ++ ["extra"])%list)
  = Raised ValueError.
Proof.
  rewrite (wide_line_verdict {[2; 3; 4]} default_args filter_header
             (filter_line "AC" "7" "AC" "5" "yes" ++ ["extra"])%list).
  - vm_compute. reflexivity.
  - vm_compute. lia.
Defined.

Lemma to_dict_short_last names line p :
  last names = Some p ->
  (length line < length names)%nat ->
  cells (to_dict names line) !! p = Some PyNone.
Proof.
  intros Hl Hlen. rewrite to_dict_cells. unfold fill.
  apply last_Some in Hl as [ns ->]. rewrite length_app in Hlen. simpl in Hlen.
  rewrite drop_app_le by lia. rewrite foldl_snoc. apply lookup_insert_eq.
Qed.

(** With [polymorphism] as the last column, as in a .compare file, a
    line that stops before the last column raises [AttributeError] in the
    loop body. *)
Lemma short_line_raises allowed a names line :
  last names = Some "polymorphism" ->
  (length line < length names)%nat ->
  filter_row allowed a names (to_dict names line) = Raised AttributeError.
Proof.
  intros Hl Hlen. unfold filter_row, polymorphism_of.
  now rewrite (to_dict_short_last names line "polymorphism" Hl Hlen).
Qed.

(** With [polymorphism] as the last column, a file that has a non-blank
    line shorter than the header cannot be filtered: no run on it ends
    normally, whatever the options and the other lines. *)
Theorem short_line_never_completes a names pre line post t k :
  last names = Some "polymorphism" ->
  line <> [] ->
  (length line < length names)%nat ->
  ended (main a (names :: pre ++ line :: post)) <> Returned (t, k).
Proof.
  intros Hl Hne Hlen H. unfold main in H.
  destruct (parse_allowed_lengths _) as [allowed| |]; try discriminate.
  cbn [fieldnames head] in H.
  destruct (missing names); [|discriminate].
  cbn [ended] in H.
  apply filter_rows_returned in H as (_ & _ & _ & Hq).
  rewrite Forall_forall in Hq.
  apply (Hq (to_dict names line)) with (x := AttributeError).
  - unfold DictReader. apply list_elem_of_fmap_2, list_elem_of_filter.
    split; [now destruct line|]. apply elem_of_app. right. now left.
  - now apply short_line_raises.
Qed.

Lemma short_line_never_completes_witness :
  ended (main default_args (filter_header :: [] ++ ["1"; "c1"; "AC"] :: []))
  <> Returned (1%nat, 0%nat).
Proof.
  apply (short_line_never_completes default_args filter_header [] ["1"; "c1"; "AC"] []).
  - reflexivity.
  - discriminate.
  - vm_compute. lia.
Defined.

End FilterOutput.

(** ** Filtering a filtered file *)

Section Refilter.
Import PyStr Csv SsrmmdFilter.

Lemma missing_nil header :
  missing header = [] -> forall c, c ∈ required_cols -> c ∈ header.
Proof.
  unfold missing. intros E c Hc.
  destruct (decide (c ∈ header)) as [|Hn]; [assumption|].
  assert (c ∈ filter (fun c => c ∉ header) required_cols) as Hf
    by (apply list_elem_of_filter; auto).
  rewrite E in Hf. now apply elem_of_nil in Hf.
Qed.

Lemma get_rewritten names row k :
  k ∈ names ->
  get (to_dict names (render names row)) k = Field (cell_text (get row k)).
Proof.
  intros H. unfold get. rewrite to_dict_cells.
  unfold render.
  now rewrite (fill_lookup_fmap (fun k => cell_text (get row k)) names ∅ k H).
Qed.

Lemma render_length names row : length (render names row) = length names.
Proof. unfold render. apply length_fmap. Qed.

Lemma render_rewritten names row :
  render names (to_dict names (render names row)) = render names row.
Proof.
  unfold render at 1 3. apply list_fmap_ext. intros i k Hk.
  apply list_elem_of_lookup_2 in Hk. now rewrite get_rewritten.
Qed.

Lemma to_int_rewritten c : to_int_or_none (Field (cell_text c)) = to_int_or_none c.
Proof. now destruct c. Qed.

Lemma get_or_empty_rewritten names row k :
  k ∈ names ->
  get_or_empty (to_dict names (render names row)) k = get_or_empty row k.
Proof.
  intros H. unfold get_or_empty. rewrite get_rewritten by assumption.
  now destruct (get row k).
Qed.

Lemma to_int_get_rewritten names row k :
  k ∈ names ->
  to_int_or_none (get (to_dict names (render names row)) k)
  = to_int_or_none (get row k).
Proof.
  intros H. rewrite get_rewritten by assumption. apply to_int_rewritten.
Qed.

Lemma criteria_rewritten allowed a names row :
  (forall c, c ∈ required_cols -> c ∈ names) ->
  criteria_trimmed allowed a (to_dict names (render names row))
  = criteria_trimmed allowed a row.
Proof.
  intros H. unfold criteria_trimmed, criteria.
  assert (forall k, bool_decide (k ∈ required_cols) = true -> k ∈ names) as Hin
    by (intros k Hk; apply H; now apply bool_decide_eq_true in Hk).
  rewrite !get_or_empty_rewritten, !to_int_get_rewritten
    by (apply Hin; vm_compute; reflexivity).
  reflexivity.
Qed.

Lemma refilter_row allowed a names row :
  (forall c, c ∈ required_cols -> c ∈ names) ->
  criteria_trimmed allowed a row = true ->
  filter_row allowed a names (to_dict names (render names row))
  = Kept (render names row).
Proof.
  intros H Hc. rewrite filter_row_criteria, criteria_rewritten, Hc by assumption.
  rewrite writerow_to_dict by (rewrite render_length; lia).
  now rewrite render_rewritten.
Qed.

Lemma refilter_rows allowed a names (sel : list dict_row) total kept :
  (forall c, c ∈ required_cols -> c ∈ names) ->
  Forall (fun row => criteria_trimmed allowed a row = true) sel ->
  filter_rows allowed a names (to_dict names <$> (render names <$> sel)) total kept
  = Run (render names <$> sel)
        (Returned ((total + length sel)%nat, (kept + length sel)%nat)).
Proof.
  intros H Hs. revert total kept.
  induction Hs as [|row sel Hc _ IH]; intros total kept.
  - simpl. now rewrite !Nat.add_0_r.
  - rewrite !fmap_cons. cbn [filter_rows]. rewrite refilter_row by assumption.
    rewrite IH. cbn [written ended length].
    apply run_eq; rewrite Nat.add_succ_r; reflexivity.
Qed.

Lemma filter_nonblank_all (l : list (list string)) :
  Forall (fun r => blank r = false) l -> filter (fun r => blank r = false) l = l.
Proof.
  induction 1 as [|x l Hx _ IH]; [reflexivity|].
  now rewrite filter_cons_True, IH.
Qed.

(** Filtering is idempotent: the filter run on a file it has written
    ends normally, writes the same file again and keeps every row. *)
Theorem filter_idempotent a input t k :
  ended (main a input) = Returned (t, k) ->
  main a (written (main a input))
  = Run (written (main a input)) (Returned (k, k)).
Proof.
  intros H. apply main_passed in H as (allowed & header & Hp & Hh & Hm & He & Hw).
  destruct (filter_rows_returned _ _ _ _ _ _ _ _ He) as (Hr & _ & -> & _).
  rewrite Hw, Hr. set (sel := filter _ (DictReader input)).
  pose proof (missing_nil header Hm) as Hreq.
  assert (header <> []) as Hne.
  { intros ->. specialize (Hreq "number").
    assert ("number" ∈ required_cols) as Hin by apply list_elem_of_here.
    apply Hreq in Hin. now apply elem_of_nil in Hin. }
  unfold main. rewrite Hp. cbn [fieldnames head]. rewrite Hm.
  unfold DictReader. rewrite filter_nonblank_all.
  2:{ apply Forall_fmap, Forall_forall. intros row _. simpl.
      pose proof (render_length header row) as Hl.
      destruct (render header row); [|reflexivity].
      destruct header; [contradiction | discriminate]. }
  rewrite refilter_rows; [reflexivity | assumption |].
  apply Forall_forall. intros row Hin. unfold sel in Hin.
  now apply list_elem_of_filter in Hin as [Hc _].
Qed.

Lemma filter_idempotent_witness :
  main default_args
    (written (main default_args
                [filter_header; filter_line "ac" "7" "AC" "5" "Yes";
                 filter_line "AT" "7" "AT" "5" "yes"]))
  = Run (written (main default_args
                    [filter_header; filter_line "ac" "7" "AC" "5" "Yes";
                     filter_line "AT" "7" "AT" "5" "yes"]))
        (Returned (1%nat, 1%nat)).
Proof.
  apply (filter_idempotent default_args
           [filter_header; filter_line "ac" "7" "AC" "5" "Yes";
            filter_line "AT" "7" "AT" "5" "yes"] 2 1).
  vm_compute. reflexivity.
Defined.

End Refilter.

(** ** The filter and the loader together *)

Section FilterThenLoad.
Import PyStr Csv.

Lemma criteria_true allowed a p m1 m2 c1 c2 :
  SsrmmdFilter.criteria allowed a p m1 m2 c1 c2 = true ->
  lower p = "yes"
  /\ truthy m1 = true /\ truthy m2 = true
  /\ upper m1 = upper m2
  /\ all_chars SsrmmdFilter.is_base (upper m1) = true
  /\ Z.of_nat (String.length m1) ∈ allowed
  /\ (exists r1 r2,
        SsrmmdFilter.to_int_or_none c1 = Some r1
        /\ SsrmmdFilter.to_int_or_none c2 = Some r2
        /\ SsrmmdFilter.min_repeats a <= r1 /\ SsrmmdFilter.min_repeats a <= r2)
  /\ (SsrmmdFilter.keep_at_only a = true
      \/ all_chars SsrmmdFilter.is_a_or_t (upper m1) = false).
Proof.
  unfold SsrmmdFilter.criteria. rewrite !andb_true_iff.
  intros ((((((Hp & Ht1 & Ht2) & Hm) & Hb) & Hl) & Hr) & Hk).
  apply String.eqb_eq in Hp, Hm. apply bool_decide_eq_true in Hl.
  do 6 (split; [assumption|]). split.
  - destruct (SsrmmdFilter.to_int_or_none c1) as [r1|]; [|discriminate].
    destruct (SsrmmdFilter.to_int_or_none c2) as [r2|]; [|discriminate].
    apply andb_true_iff in Hr as [H1 H2]. apply Z.leb_le in H1, H2.
    exists r1, r2. auto.
  - apply orb_true_iff in Hk as [Hk|Hk]; [now left|]. right.
    now apply negb_true_iff in Hk.
Qed.


Lemma is_kept_criteria allowed a names row :
  SsrmmdFilter.is_kept (SsrmmdFilter.filter_row allowed a names row) = true ->
  SsrmmdFilter.criteria_trimmed allowed a row = true
  /\ writerow names row = Returned (render names row).
Proof.
  rewrite filter_row_criteria.
  destruct (SsrmmdFilter.criteria_trimmed allowed a row).
  - destruct (writerow names row) as [l| |] eqn:W; try discriminate.
    intros _. split; [reflexivity|]. now rewrite (writerow_returned _ _ _ W).
  - destruct (SsrmmdFilter.polymorphism_of row); discriminate.
Qed.



Lemma criteria_monotone allowed allowed' a a' (row : dict_row) :
  allowed ⊆ allowed' ->
  SsrmmdFilter.min_repeats a' <= SsrmmdFilter.min_repeats a ->
  (SsrmmdFilter.keep_at_only a = true -> SsrmmdFilter.keep_at_only a' = true) ->
  SsrmmdFilter.criteria_trimmed allowed a row = true ->
  SsrmmdFilter.criteria_trimmed allowed' a' row = true.
Proof.
  intros Hsub Hmin Hkeep Hc. unfold SsrmmdFilter.criteria_trimmed in *.
  apply criteria_true in Hc
    as (Hp & Ht1 & Ht2 & Hm & Hb & Hl & (r1 & r2 & H1 & H2 & Hr1 & Hr2) & Hk).
  unfold SsrmmdFilter.criteria.
  rewrite Hp, Ht1, Ht2, Hb, H1, H2, (proj2 (String.eqb_eq _ _) Hm). simpl.
  rewrite bool_decide_eq_true_2 by (now apply Hsub). simpl.
  rewrite (proj2 (Z.leb_le _ _)) by lia. rewrite (proj2 (Z.leb_le _ _)) by lia.
  simpl. destruct Hk as [Hk|Hk].
  - now rewrite (Hkeep Hk).
  - rewrite Hk. apply orb_true_r.
Qed.

(** Loosening the options never loses a row: a row kept under one
    setting is kept under any setting with more allowed lengths, a lower
    minimum, and AT-only motifs kept whenever they were; so tightening
    them never adds a row. *)
Theorem kept_under_looser_options allowed allowed' a a' names (row : dict_row) :
  allowed ⊆ allowed' ->
  SsrmmdFilter.min_repeats a' <= SsrmmdFilter.min_repeats a ->
  (SsrmmdFilter.keep_at_only a = true -> SsrmmdFilter.keep_at_only a' = true) ->
  SsrmmdFilter.is_kept (SsrmmdFilter.filter_row allowed a names row) = true ->
  SsrmmdFilter.filter_row allowed' a' names row
  = SsrmmdFilter.filter_row allowed a names row.
Proof.
  intros Hsub Hmin Hkeep H. apply is_kept_criteria in H as [Hc Hw].
  rewrite !filter_row_criteria, Hc.
  now rewrite (criteria_monotone allowed allowed' a a' row Hsub Hmin Hkeep Hc).
Qed.

Lemma kept_under_looser_options_witness :
  SsrmmdFilter.filter_row {[2; 3; 4; 5]} (SsrmmdFilter.Args "2,3,4,5" 3 true) filter_header
    (to_dict filter_header (filter_line "ac" "7" "AC" "5" "Yes"))
  = SsrmmdFilter.filter_row {[2; 3; 4]} SsrmmdFilter.default_args filter_header
      (to_dict filter_header (filter_line "ac" "7" "AC" "5" "Yes")).
Proof.
  apply (kept_under_looser_options {[2; 3; 4]} {[2; 3; 4; 5]} SsrmmdFilter.default_args).
  - apply (bool_decide_unpack _). vm_compute. reflexivity.
  - vm_compute. discriminate.
  - vm_compute. discriminate.
  - vm_compute. reflexivity.
Defined.

End FilterThenLoad.

(** ** Base names and columns *)

Section BaseNames.
Import PyStr Csv AddMsatName.

Lemma string_of_uint_nonempty d : NilZero.string_of_uint d <> "".
Proof.
  destruct d; simpl; discriminate.
Qed.

(** [str n] is an optional minus sign and a non-empty run of digits. *)
Lemma str_shape n :
  exists sg d, str n = sg ++ d /\ (sg = "" \/ sg = "-")
               /\ d <> "" /\ all_chars isdigit d = true.
Proof.
  unfold str, NilZero.string_of_int. destruct (Z.to_int n) as [u|u].
  - exists "", (NilZero.string_of_uint u).
    auto using string_of_uint_nonempty, string_of_uint_digits.
  - exists "-", (NilZero.string_of_uint u).
    auto using string_of_uint_nonempty, string_of_uint_digits.
Qed.

Lemma digits_prefix_inj d d' rest rest' :
  all_chars isdigit d = true -> all_chars isdigit d' = true ->
  starts_without_digit rest -> starts_without_digit rest' ->
  d ++ rest = d' ++ rest' -> d = d' /\ rest = rest'.
Proof.
  intros Hd Hd' Hr Hr' E.
  assert (d = d') as <-.
  { rewrite <- (take_digits_append d rest Hd Hr), E.
    now apply take_digits_append. }
  split; [reflexivity|]. now apply (inj (String.append d)) in E.
Qed.

Lemma number_prefix_inj sg d rest sg' d' rest' :
  (sg = "" \/ sg = "-") -> (sg' = "" \/ sg' = "-") ->
  d <> "" -> d' <> "" ->
  all_chars isdigit d = true -> all_chars isdigit d' = true ->
  starts_without_digit rest -> starts_without_digit rest' ->
  sg ++ d ++ rest = sg' ++ d' ++ rest' ->
  sg ++ d = sg' ++ d' /\ rest = rest'.
Proof.
  intros Hs Hs' Hn Hn' Hd Hd' Hr Hr' E.
  destruct Hs as [-> | ->], Hs' as [-> | ->]; rewrite ?append_nil_l, ?append_cons in *.
  - destruct (digits_prefix_inj d d' rest rest') as [-> ->]; auto.
  - exfalso. destruct d as [|c d]; [contradiction|].
    rewrite append_cons in E. injection E as -> _.
    simpl in Hd. discriminate.
  - exfalso. destruct d' as [|c d']; [contradiction|].
    rewrite append_cons in E. injection E as <- _.
    simpl in Hd'. discriminate.
  - injection E as E.
    destruct (digits_prefix_inj d d' rest rest') as [-> ->]; auto.
Qed.

Lemma str_prefix_inj n n' rest rest' :
  starts_without_digit rest -> starts_without_digit rest' ->
  str n ++ rest = str n' ++ rest' -> n = n' /\ rest = rest'.
Proof.
  intros Hr Hr' E.
  destruct (str_shape n) as (sg & d & En & Hs & Hn & Hd).
  destruct (str_shape n') as (sg' & d' & En' & Hs' & Hn' & Hd').
  rewrite En, En', !append_assoc in E.
  destruct (number_prefix_inj sg d rest sg' d' rest') as [E1 E2]; auto.
  split; [|assumption]. apply str_inj. now rewrite En, En'.
Qed.

(** Loci share a Base Name only when their records agree: the Base Name
    determines the motif and both repeat bounds. *)
Theorem base_name_inj motif rmin rmax motif' rmin' rmax' :
  base_name motif rmin rmax = base_name motif' rmin' rmax' ->
  motif = motif' /\ rmin = rmin' /\ rmax = rmax'.
Proof.
  unfold base_name. intros E.
  assert (forall a b, occurs "(" (str a ++ "-" ++ str b ++ ")") = false) as Hno.
  { intros a b. rewrite !occurs_append.
    assert (forall n, occurs "(" (str n) = false) as Hs.
    { intros n. destruct (str_shape n) as (sg & d & -> & Hsg & _ & Hd).
      rewrite occurs_append.
      rewrite (all_chars_occurs isdigit "(" d Hd eq_refl).
      now destruct Hsg as [-> | ->]. }
    now rewrite !Hs. }
  apply (split_last "(") in E as [-> E]; [|apply Hno..].
  split; [reflexivity|].
  apply str_prefix_inj in E as [-> E]; [|reflexivity..].
  split; [reflexivity|].
  change ("-" ++ ?s) with (String "-" s) in E. injection E as E.
  now apply str_prefix_inj in E as [-> _].
Qed.

Lemma base_name_inj_witness : "AC" = "AC" /\ 4 = 4 /\ 7 = 7.
Proof. apply (base_name_inj "AC" 4 7 "AC" 4 7). reflexivity. Defined.

(** The loader reads a line by column name: with headers free of
    repeated names, two lines that hold the same cells under the five
    needed names are stored alike, wherever those columns stand and
    whatever other columns there are. *)
Theorem record_by_column_name names names' line line' :
  NoDup names -> NoDup names' ->
  (forall c, c ∈ needed ->
     exists i j, names !! i = Some c /\ names' !! j = Some c
                 /\ cell_at line i = cell_at line' j) ->
  record_of (to_dict names line) = record_of (to_dict names' line').
Proof.
  intros Hnd Hnd' H.
  assert (forall c, bool_decide (c ∈ needed) = true ->
            get (to_dict names line) c = get (to_dict names' line') c) as Hg.
  { intros c Hc. apply bool_decide_eq_true in Hc.
    destruct (H c Hc) as (i & j & Hi & Hj & E).
    now rewrite (get_to_dict names line i c Hnd Hi),
                (get_to_dict names' line' j c Hnd' Hj). }
  unfold record_of, get_or_empty.
  now rewrite !Hg by (vm_compute; reflexivity).
Qed.

Lemma record_by_column_name_witness :
  record_of (to_dict compare_header ["66"; "ac"; "4"; "AC"; "7"])
  = record_of (to_dict ["fasta2_repeat_number"; "note"; "fasta2_motif"; "number";
                        "fasta1_repeat_number"; "fasta1_motif"]
                 ["7"; "n"; "AC"; "66"; "4"; "ac"]).
Proof.
  apply (record_by_column_name compare_header
           ["fasta2_repeat_number"; "note"; "fasta2_motif"; "number";
            "fasta1_repeat_number"; "fasta1_motif"]).
  - apply (bool_decide_unpack _). vm_compute. reflexivity.
  - apply (bool_decide_unpack _). vm_compute. reflexivity.
  - intros c Hc. unfold needed in Hc.
    repeat (apply elem_of_cons in Hc as [->|Hc]).
    + exists 0%nat, 3%nat. repeat split.
    + exists 1%nat, 5%nat. repeat split.
    + exists 3%nat, 2%nat. repeat split.
    + exists 2%nat, 4%nat. repeat split.
    + exists 4%nat, 0%nat. repeat split.
    + now apply elem_of_nil in Hc.
Defined.

End BaseNames.

(** ** Rows that do not reach the id column *)

Section ShortRows.
Import PyStr Csv AddMsatName.

(** Indexing a row at the id column never goes out of range: a row that
    stops before the id column is read as having the empty id, has no
    locus key, and gets ["NA"] inserted. *)
Theorem row_without_id header id_idx comp data row :
  (id_idx < length header)%nat ->
  (length row <= id_idx)%nat ->
  normalize header row !! id_idx = Some ""
  /\ locus_of header id_idx row = ""
  /\ pass3_row (names header id_idx comp data) header id_idx row
     = insert_after id_idx "NA" (normalize header row).
Proof.
  intros Hh Hr.
  assert (normalize header row !! id_idx = Some "") as Hl.
  { rewrite normalize_pad, lookup_app_r by assumption.
    apply lookup_replicate_2. lia. }
  assert (locus_of header id_idx row = "") as Hk.
  { unfold locus_of, field. now rewrite Hl. }
  split; [assumption|]. split; [assumption|].
  unfold pass3_row. rewrite ms_name_NA; [reflexivity | now left].
Qed.

Lemma row_without_id_witness :
  normalize ["n"; "id"; "forward_primer"] ["7"] !! 1%nat = Some ""
  /\ locus_of ["n"; "id"; "forward_primer"] 1 ["7"] = ""
  /\ pass3_row (names ["n"; "id"; "forward_primer"] 1 sample_comp [["7"]])
       ["n"; "id"; "forward_primer"] 1 ["7"]
     = insert_after 1 "NA" (normalize ["n"; "id"; "forward_primer"] ["7"]).
Proof.
  apply (row_without_id ["n"; "id"; "forward_primer"] 1 sample_comp [["7"]] ["7"]);
    simpl; lia.
Defined.

End ShortRows.

(** ** Suffixes as they are written and read *)

Section Suffixes.
Import PyStr Csv AddMsatName.

Ltac digit_step :=
  cbn [NilEmpty.string_of_uint int_tail];
  match goal with
  | |- context [isdigit ?c] => replace (isdigit c) with true by reflexivity
  end;
  match goal with
  | |- context [digit_val ?c] =>
      let v := eval vm_compute in (digit_val c) in change (digit_val c) with v
  end;
  cbv iota.

Lemma int_tail_uint_acc d acc :
  int_tail (NilEmpty.string_of_uint d) (Z.pos acc)
  = Some (Z.pos (Pos.of_uint_acc d acc)).
Proof.
  revert acc. induction d as [|d IH|d IH|d IH|d IH|d IH|d IH|d IH|d IH|d IH|d IH];
    intros acc; [reflexivity|..]; digit_step; cbn [Pos.of_uint_acc];
    rewrite <- IH; f_equal; lia.
Qed.

Lemma int_tail_uint d :
  int_tail (NilEmpty.string_of_uint d) 0 = Some (Z.of_N (Pos.of_uint d)).
Proof.
  induction d as [|d IH|d IH|d IH|d IH|d IH|d IH|d IH|d IH|d IH|d IH];
    [reflexivity|..]; digit_step; cbn [Pos.of_uint];
    [exact IH | cbn [Z.of_N]; rewrite <- int_tail_uint_acc; reflexivity ..].
Qed.

Lemma int_of_digits d :
  d <> Decimal.Nil ->
  int (NilEmpty.string_of_uint d) = int_tail (NilEmpty.string_of_uint d) 0
  /\ int (String "-" (NilEmpty.string_of_uint d))
     = Z.opp <$> int_tail (NilEmpty.string_of_uint d) 0.
Proof.
  intros H. destruct d; [contradiction|..]; split; reflexivity.
Qed.

Lemma string_of_uint_nonnil d :
  d <> Decimal.Nil -> NilZero.string_of_uint d = NilEmpty.string_of_uint d.
Proof. destruct d; [contradiction | reflexivity ..]. Qed.

(** Reading a rendered integer back gives the integer. *)
Lemma int_str n : int (str n) = Some n.
Proof.
  unfold str. destruct n as [|p|p]; [reflexivity|..]; simpl Z.to_int;
    pose proof (DecimalPos.Unsigned.to_uint_nonnil p) as Hn;
    unfold NilZero.string_of_int; rewrite (string_of_uint_nonnil _ Hn).
  - rewrite (proj1 (int_of_digits _ Hn)), int_tail_uint,
      DecimalPos.Unsigned.of_to; reflexivity.
  - rewrite (proj2 (int_of_digits _ Hn)), int_tail_uint,
      DecimalPos.Unsigned.of_to; reflexivity.
Qed.

Lemma str_of_nat_digits k : all_chars isdigit (str (Z.of_nat k)) = true.
Proof.
  unfold str, NilZero.string_of_int.
  destruct (Z.of_nat k) eqn:E; simpl Z.to_int;
    [apply string_of_uint_digits .. | lia].
Qed.

(** C2. Suffix laws: for a Base Name [b] other than ["NA"], the distinct
    loci carrying [b], taken in the order in which the primer table first
    shows them, are named [b.1], [b.2], [b.3], ...: the name of the locus
    at position [i] (from 0) is [b], a dot, and the decimal digits that
    read back as [i + 1]; no name is given twice, and the first locus is
    named [b.1]. *)
Theorem suffixes_ascend header id_idx comp data b :
  b <> "NA" ->
  let st := pass1 header id_idx comp data in
  let carrying := filter (fun x => base_of comp x = b) (loci_in_order st) in
  let named := fun x => names header id_idx comp data !! x in
  NoDup carrying
  /\ named <$> carrying
     = (fun k => Some (b ++ "." ++ str (Z.of_nat k))) <$> seq 1 (length carrying)
  /\ (forall i x, carrying !! i = Some x ->
        exists s, named x = Some (b ++ "." ++ s)
                  /\ all_chars isdigit s = true
                  /\ int s = Some (Z.of_nat (S i)))
  /\ NoDup (named <$> carrying)
  /\ (forall x, head carrying = Some x -> named x = Some (b ++ ".1"))
  /\ loci_in_order st = first_seen ∅ (locus_of header id_idx <$> data).
Proof.
  intros Hb st carrying named.
  assert (Hn : named <$> carrying
               = (fun k => Some (b ++ "." ++ str (Z.of_nat k)))
                   <$> seq 1 (length carrying))
    by exact (suffixes_of_base header id_idx comp data b Hb).
  split; [|split; [|split; [|split; [|split]]]].
  - apply NoDup_filter, (inv_nodup _ _ (pass1_inv_final header id_idx comp data)).
  - exact Hn.
  - intros i x Hi. exists (str (Z.of_nat (S i))).
    assert (He : (named <$> carrying) !! i = Some (named x))
      by (rewrite list_lookup_fmap, Hi; reflexivity).
    rewrite Hn, list_lookup_fmap, lookup_seq_lt in He
      by (apply lookup_lt_Some in Hi; exact Hi).
    injection He as He.
    split; [symmetry; exact He | split; [apply str_of_nat_digits | apply int_str]].
  - rewrite Hn. pose proof (final_name_of_nat_inj b) as Hinj.
    apply (NoDup_fmap_2 _), NoDup_seq.
  - intros x Hx. destruct carrying as [|y l]; [discriminate|].
    injection Hx as ->. simpl in Hn. now injection Hn as Hn _.
  - apply pass1_first_seen.
Qed.

Lemma suffixes_ascend_witness :
  "AC(4-7)" <> "NA"
  /\ (fun x => names primer_header 0 sample_comp sample_data !! x)
       <$> filter (fun x => base_of sample_comp x = "AC(4-7)")
             (loci_in_order (pass1 primer_header 0 sample_comp sample_data))
     = [Some "AC(4-7).1"; Some "AC(4-7).2"].
Proof.
  assert ("AC(4-7)" <> "NA") as H by discriminate.
  split; [exact H|].
  etransitivity;
    [exact (proj1 (proj2 (suffixes_ascend primer_header 0 sample_comp sample_data
                            "AC(4-7)" H)))|].
  vm_compute. reflexivity.
Defined.

End Suffixes.

(** ** The records the loader stores *)

Section StoredRecords.
Import PyStr Csv AddMsatName.












End StoredRecords.

(** ** When the loader ends the run *)

Section LoaderOutcome.
Import PyStr Csv AddMsatName.

Lemma get_blank names k : get (to_dict names []) k = PyNone.
Proof.
  unfold get. rewrite to_dict_cells, fill_short.
  destruct (decide (k ∈ names)) as [Hin|Hin].
  - now rewrite foldl_none_in.
  - now rewrite foldl_none_notin, lookup_empty.
Qed.

(** A blank line, had the reader not dropped it, would be skipped. *)
Lemma blank_unusable names line : blank line = true -> unusable names line.
Proof.
  destruct line; [|discriminate]. intros _. left.
  unfold get_or_empty. now rewrite get_blank.
Qed.

Lemma record_of_unusable names line :
  record_of (to_dict names line) = None <-> unusable names line.
Proof.
  unfold record_of, unusable. cbv zeta.
  destruct (truthy (strip _)) eqn:T; simpl.
  - apply truthy_true in T.
    destruct (int_of_cell (get _ "fasta1_repeat_number")) as [rep1|];
      [|split; auto].
    destruct (int_of_cell (get _ "fasta2_repeat_number")) as [rep2|];
      [|split; auto].
    split; [discriminate|]. intros [H | [H | H]]; [contradiction | discriminate ..].
  - split; [|reflexivity]. intros _. left.
    destruct (strip _); [reflexivity | discriminate].
Qed.

Lemma no_record_iff names data :
  Forall (fun row => record_of row = None)
         (to_dict names <$> filter (fun r => blank r = false) data)
  <-> Forall (unusable names) data.
Proof.
  rewrite Forall_fmap, !Forall_forall. split.
  - intros H line Hin. destruct (blank line) eqn:B; [now apply blank_unusable|].
    apply record_of_unusable, H, list_elem_of_filter. auto.
  - intros H line Hin. apply list_elem_of_filter in Hin as [_ Hin].
    apply record_of_unusable, H, Hin.
Qed.

(** C6. The loader ends the run exactly when a required column is
    missing from the header or every line of the file after the header
    is unusable, that is, has no number after trimming or a repeat count
    that is no integer; an unusable line is skipped: the run goes on as
    if the line were not in the file. *)
Theorem load_compare_fatal_iff (rows : list (list string)) :
  (aborts (load_compare rows)
   <-> (exists c, c ∈ needed /\ c ∉ default [] (fieldnames rows))
       \/ Forall (unusable (default [] (fieldnames rows))) (tail rows))
  /\ (forall names pre line post,
        rows = names :: pre ++ line :: post ->
        unusable names line ->
        load_compare rows = load_compare (names :: pre ++ post)).
Proof.
  split.
  - unfold load_compare. destruct rows as [|names data]; simpl.
    { split; [right; constructor | trivial]. }
    destruct (missing_columns names) as [|c miss] eqn:E.
    + pose proof (proj1 (missing_columns_nil names) E) as Hall.
      rewrite <- no_record_iff, <- load_rows_empty.
      destruct (decide (_ = ∅)) as [Hc|Hc]; simpl.
      * split; [now right | trivial].
      * split; [contradiction|]. intros [(c & Hc1 & Hc2) | H]; [|contradiction].
        apply Hc2. now apply Hall.
    + simpl. split; [|trivial]. intros _. left. exists c.
      assert (c ∈ missing_columns names) as Hf by (rewrite E; apply list_elem_of_here).
      apply list_elem_of_filter in Hf as [Hn Hc]. auto.
  - intros names pre line post -> H. unfold load_compare, load_rows. simpl fieldnames.
    now rewrite (DictReader_drop_unusable names pre line post ∅ H).
Qed.

Lemma load_compare_fatal_iff_witness :
  unusable compare_header ["x"; "GT"; "n/a"; "GT"; "5"]
  /\ load_compare [compare_header; ["66"; "ac"; "4"; "AC"; "7"];
                   ["x"; "GT"; "n/a"; "GT"; "5"]]
     = load_compare [compare_header; ["66"; "ac"; "4"; "AC"; "7"]].
Proof.
  assert (H : unusable compare_header ["x"; "GT"; "n/a"; "GT"; "5"])
    by (right; left; vm_compute; reflexivity).
  split; [exact H|].
  apply (proj2 (load_compare_fatal_iff
                  [compare_header; ["66"; "ac"; "4"; "AC"; "7"];
                   ["x"; "GT"; "n/a"; "GT"; "5"]])
           compare_header [["66"; "ac"; "4"; "AC"; "7"]]
           ["x"; "GT"; "n/a"; "GT"; "5"] []).
  - reflexivity.
  - exact H.
Defined.

End LoaderOutcome.

(** ** The columns a fatal message lists *)

Section MissingColumns.
Import PyStr Csv.

(** The loader's message lists every needed column the header lacks, in
    the order of [needed]. *)
Lemma load_compare_missing rows names :
  fieldnames rows = Some names ->
  AddMsatName.missing_columns names <> [] ->
  AddMsatName.load_compare rows
  = SysExit (CompareMissingColumns (AddMsatName.missing_columns names)).
Proof.
  unfold AddMsatName.load_compare. intros -> H.
  now destruct (AddMsatName.missing_columns names).
Qed.

Example load_compare_missing_two :
  AddMsatName.load_compare [["number"; "fasta1_motif"; "fasta1_repeat_number"]]
  = SysExit (CompareMissingColumns ["fasta2_motif"; "fasta2_repeat_number"]).
Proof. vm_compute. reflexivity. Qed.

(** So does the filter's, in the order of [required_cols]. *)
Lemma filter_main_missing a input allowed_lengths header :
  SsrmmdFilter.parse_allowed_lengths (SsrmmdFilter.allowed_motif_lengths a)
  = Returned allowed_lengths ->
  fieldnames input = Some header ->
  SsrmmdFilter.missing header <> [] ->
  SsrmmdFilter.main a input
  = SsrmmdFilter.Run [] (SysExit (FilterMissingColumns (SsrmmdFilter.missing header))).
Proof.
  unfold SsrmmdFilter.main. intros -> -> H.
  now destruct (SsrmmdFilter.missing header).
Qed.

End MissingColumns.
